(** * poc-address-finder: nearest-NMI resolver, lookup handlers and selection controller

    A shallow embedding of the TypeScript sources:

    - [Api]        the two Next.js route handlers ([/api/addressfinder], [/api/geocode]);
    - [App]        [src/App.tsx]: the synchronous controller with its own resolver;
    - [MapWithNmi] [src/components/MapWithNmi.tsx]: the asynchronous controller.

    JavaScript numbers are IEEE-754 binary64 values, embedded as Rocq's primitive
    floats.  [Math.sqrt] is the correctly rounded square root; [Math.pow(x, 2)]
    is taken to be the correctly rounded product [x * x].  Only NaN propagation,
    overflow and the comparison [<] are ever used about them below. *)

From Stdlib Require Import Floats ZArith Lia Bool List String Ascii.
Import ListNotations.

Set Warnings "-inexact-float,-register-all".
Set Implicit Arguments.

(** ** JavaScript numbers *)

Module JsNumber.

Definition number := float.

(** [Math.pow(x, 2)] *)
Definition pow2 (x : number) : number := PrimFloat.mul x x.

(** [Math.sqrt(x)] *)
Definition Math_sqrt (x : number) : number := PrimFloat.sqrt x.

(** [Number.POSITIVE_INFINITY] *)
Definition POSITIVE_INFINITY : number := PrimFloat.infinity.

(** [a < b] on numbers: false as soon as one side is NaN. *)
Definition lt (a b : number) : bool := PrimFloat.ltb a b.

(** [a <= b] on numbers. *)
Definition le (a b : number) : bool := PrimFloat.leb a b.

(** [Number.isNaN(x)] *)
Definition isNaN (x : number) : bool := PrimFloat.is_nan x.

End JsNumber.

Import JsNumber.

Local Open Scope string_scope.
Local Open Scope Z_scope.

(** ** Plain JavaScript objects used as dictionaries, and JSON bodies *)

Module Js.

(** The values a handler can put into a JSON body. *)
Inductive Json : Type :=
| JString (s : string)
| JNumber (x : number)
| JObject (fields : list (string * Json)).

(** Property names every object literal inherits from [Object.prototype]. *)
Definition Object_prototype : list string :=
  [ "constructor"; "hasOwnProperty"; "isPrototypeOf"; "propertyIsEnumerable";
    "toLocaleString"; "toString"; "valueOf"; "__proto__";
    "__defineGetter__"; "__defineSetter__"; "__lookupGetter__"; "__lookupSetter__" ].

(** The outcome of [obj[key]] on an object literal: an own property, a
    property found on the prototype chain, or [undefined]. *)
Inductive Property (V : Type) : Type :=
| Own (v : V)
| Inherited (key : string)
| Undefined.
Arguments Inherited {V} key.
Arguments Undefined {V}.

Fixpoint own {V} (obj : list (string * V)) (key : string) : option V :=
  match obj with
  | [] => None
  | (k, v) :: rest => if String.eqb k key then Some v else own rest key
  end.

Definition inherited (key : string) : bool :=
  existsb (String.eqb key) Object_prototype.

(** [obj[key]] *)
Definition get {V} (obj : list (string * V)) (key : string) : Property V :=
  match own obj key with
  | Some v => Own v
  | None => if inherited key then Inherited key else Undefined
  end.

(** [Object.keys(obj)] *)
Definition keys {V} (obj : list (string * V)) : list string := map fst obj.

(** Truthiness of a string. *)
Definition truthy_string (s : string) : bool :=
  match s with EmptyString => false | _ => true end.

(** How [JSON.stringify] renders an inherited member as the value of a
    field: functions are dropped, [Object.prototype] itself (reached
    through [__proto__]) has no own enumerable property. *)
Definition json_of_inherited (key : string) : option Json :=
  if String.eqb key "__proto__" then Some (JObject []) else None.

Definition field (name : string) (v : option Json) : list (string * Json) :=
  match v with Some j => [(name, j)] | None => [] end.

End Js.

(** ** Records shared by the sources *)

(** [{ lat: number; lng: number }] *)
Module LatLng.
Record t : Type := make { lat : number; lng : number }.
End LatLng.

(** [interface NmiGeocode { nmi: string; lat: number; lng: number }]; the
    entries of [mockNmiData] in [App.tsx] have the same shape. *)
Module NmiGeocode.
Record t : Type := make { nmi : string; lat : number; lng : number }.
End NmiGeocode.

(** The expression both resolvers compute for a directory entry [c]:
    [Math.sqrt(Math.pow(c.lat - lat, 2) + Math.pow(c.lng - lng, 2))]. *)
Definition distance (c : NmiGeocode.t) (lat lng : number) : number :=
  Math_sqrt (PrimFloat.add (pow2 (PrimFloat.sub (NmiGeocode.lat c) lat))
                           (pow2 (PrimFloat.sub (NmiGeocode.lng c) lng))).

(** ** The lookup service: the two route handlers *)

Module Api.
Import Js.

(** [req.query.nmi]: [string | string[] | undefined] *)
Inductive QueryValue : Type :=
| QAbsent
| QString (s : string)
| QArray (l : list string).

Record Response : Type := { status : Z; body : Json }.

(** [res.status(code).json(obj)] *)
Definition respond (code : Z) (fields : list (string * Json)) : Response :=
  {| status := code; body := JObject fields |}.

(** [res.status(400).json({ error: 'Missing or invalid NMI' })] *)
Definition bad_request : Response :=
  respond 400 [("error", JString "Missing or invalid NMI")].

(** [res.status(404).json({ error: 'NMI not found' })] *)
Definition not_found : Response :=
  respond 404 [("error", JString "NMI not found")].

Module Addressfinder.

Definition mockAddressData : list (string * string) :=
  [ ("NMI001", "1 Market St, Sydney NSW 2000, Australia");
    ("NMI002", "123 Collins St, Melbourne VIC 3000, Australia");
    ("NMI003", "456 Queen St, Brisbane QLD 4000, Australia") ].

Definition handler (q : QueryValue) : Response :=
  match q with
  | QString nmi =>
      match get mockAddressData nmi with
      | Own address =>
          if truthy_string address
          then respond 200 [("nmi", JString nmi); ("address", JString address)]
          else not_found
      | Inherited key =>
          respond 200 (("nmi", JString nmi) :: field "address" (json_of_inherited key))
      | Undefined => not_found
      end
  | _ => bad_request
  end.

End Addressfinder.

Module Geocode.

Definition nmiGeocodeData : list (string * LatLng.t) :=
  [ ("NMI001", LatLng.make (-33.8708)%float 151.2073%float);
    ("NMI002", LatLng.make (-37.8136)%float 144.9631%float);
    ("NMI003", LatLng.make (-27.4698)%float 153.0251%float) ].

Definition handler (q : QueryValue) : Response :=
  match q with
  | QString nmi =>
      match get nmiGeocodeData nmi with
      | Own geocode =>
          respond 200 [("nmi", JString nmi);
                       ("lat", JNumber (LatLng.lat geocode));
                       ("lng", JNumber (LatLng.lng geocode))]
      | Inherited _ =>
          (* spreading a function or [Object.prototype] copies nothing *)
          respond 200 [("nmi", JString nmi)]
      | Undefined => not_found
      end
  | _ => bad_request
  end.

End Geocode.

End Api.

(** ** [src/App.tsx] *)

Module App.
Import Js.

Definition mockNmiData : list NmiGeocode.t :=
  [ NmiGeocode.make "NMI001" (-33.8708)%float 151.2073%float;
    NmiGeocode.make "NMI002" (-37.8136)%float 144.9631%float;
    NmiGeocode.make "NMI003" (-27.4698)%float 153.0251%float ].

Definition mockAddressData : list (string * string) :=
  [ ("NMI001", "1 Market St, Sydney NSW 2000, Australia");
    ("NMI002", "123 Collins St, Melbourne VIC 3000, Australia");
    ("NMI003", "456 Queen St, Brisbane QLD 4000, Australia") ].

(** The [for] loop of [findNearestNmi], over the entries still to visit and
    the current values of [minDist] and [nearestNmi]. *)
Fixpoint findNearestNmi_loop (entries : list NmiGeocode.t) (lat lng : number)
         (minDist : number) (nearestNmi : option string) : option string :=
  match entries with
  | [] => nearestNmi
  | entry :: rest =>
      let dist := distance entry lat lng in
      if lt dist minDist
      then findNearestNmi_loop rest lat lng dist (Some (NmiGeocode.nmi entry))
      else findNearestNmi_loop rest lat lng minDist nearestNmi
  end.

(** [findNearestNmi] over a given directory. *)
Definition findNearestNmiIn (directory : list NmiGeocode.t) (lat lng : number)
  : option string :=
  findNearestNmi_loop directory lat lng POSITIVE_INFINITY None.

Definition findNearestNmi (lat lng : number) : option string :=
  findNearestNmiIn mockNmiData lat lng.

Record State : Type :=
  { selectedPosition : option LatLng.t;
    selectedNmi : option string;
    address : string;
    confirmedAddress : string }.

Definition initial : State :=
  {| selectedPosition := None; selectedNmi := None;
     address := ""; confirmedAddress := "" |}.

Definition setSelectedPosition (p : option LatLng.t) (s : State) : State :=
  {| selectedPosition := p; selectedNmi := selectedNmi s;
     address := address s; confirmedAddress := confirmedAddress s |}.
Definition setSelectedNmi (n : option string) (s : State) : State :=
  {| selectedPosition := selectedPosition s; selectedNmi := n;
     address := address s; confirmedAddress := confirmedAddress s |}.
Definition setAddress (a : string) (s : State) : State :=
  {| selectedPosition := selectedPosition s; selectedNmi := selectedNmi s;
     address := a; confirmedAddress := confirmedAddress s |}.
Definition setConfirmedAddress (a : string) (s : State) : State :=
  {| selectedPosition := selectedPosition s; selectedNmi := selectedNmi s;
     address := address s; confirmedAddress := a |}.

(** [nmi && mockAddressData[nmi]], as the string to show when truthy.  An
    inherited member is truthy but is no string; [findNearestNmi] only
    returns identifiers of [mockNmiData], all of them own keys (lemma
    [findNearestNmi_own_key]), so that case is never reached. *)
Definition addressOf (nmi : option string) : option string :=
  match nmi with
  | Some n =>
      if truthy_string n then
        match get mockAddressData n with
        | Own a => if truthy_string a then Some a else None
        | Inherited _ => None
        | Undefined => None
        end
      else None
  | None => None
  end.

Definition handleMapClick (lat lng : number) (s : State) : State :=
  let s := setSelectedPosition (Some (LatLng.make lat lng)) s in
  let nmi := findNearestNmi lat lng in
  let s := setSelectedNmi nmi s in
  match addressOf nmi with
  | Some a => setConfirmedAddress "" (setAddress a s)
  | None => setConfirmedAddress "" (setAddress "" s)
  end.

Definition handleConfirm (s : State) : State :=
  setConfirmedAddress (address s) s.

(** [disabled={!address || address === confirmedAddress}] *)
Definition confirmDisabled (s : State) : bool :=
  negb (truthy_string (address s)) || String.eqb (address s) (confirmedAddress s).

(** The "Selection Details" panel. *)
Inductive Panel : Type :=
| Details (nmi : string) (addressInput : string) (confirmDisabled : bool)
          (confirmed : option string)
| Prompt.

Definition render (s : State) : Panel :=
  match selectedNmi s with
  | Some n =>
      if truthy_string n
      then Details n (address s) (confirmDisabled s)
                   (if truthy_string (confirmedAddress s)
                    then Some (confirmedAddress s) else None)
      else Prompt
  | None => Prompt
  end.

(** The user's actions. *)
Inductive Event : Type :=
| MapClick (lat lng : number)
| EditAddress (a : string)
| Confirm.

(** A click on a disabled button, or on one that is not rendered, does nothing. *)
Definition step (s : State) (e : Event) : State :=
  match e with
  | MapClick lat lng => handleMapClick lat lng s
  | EditAddress a =>
      match render s with Details _ _ _ _ => setAddress a s | Prompt => s end
  | Confirm =>
      match render s with
      | Details _ _ false _ => handleConfirm s
      | _ => s
      end
  end.

End App.

(** ** [src/components/MapWithNmi.tsx] *)

Module MapWithNmi.
Import Js.

Definition DEFAULT_POSITION : LatLng.t :=
  LatLng.make (-33.8708)%float 151.2073%float.

Definition nmiMarkers : list NmiGeocode.t :=
  [ NmiGeocode.make "NMI001" (-33.8708)%float 151.2073%float;
    NmiGeocode.make "NMI002" (-37.8136)%float 144.9631%float;
    NmiGeocode.make "NMI003" (-27.4698)%float 153.0251%float ].

(** *** The component's state *)

Record State : Type :=
  { selectedPosition : option LatLng.t;
    selectedNmi : option string;
    address : string;
    confirmedAddress : string;
    loading : bool;
    error : string }.

Definition initial : State :=
  {| selectedPosition := None; selectedNmi := None; address := "";
     confirmedAddress := ""; loading := false; error := "" |}.

Definition setSelectedPosition (p : option LatLng.t) (s : State) : State :=
  {| selectedPosition := p; selectedNmi := selectedNmi s; address := address s;
     confirmedAddress := confirmedAddress s; loading := loading s; error := error s |}.
Definition setSelectedNmi (n : option string) (s : State) : State :=
  {| selectedPosition := selectedPosition s; selectedNmi := n; address := address s;
     confirmedAddress := confirmedAddress s; loading := loading s; error := error s |}.
Definition setAddress (a : string) (s : State) : State :=
  {| selectedPosition := selectedPosition s; selectedNmi := selectedNmi s; address := a;
     confirmedAddress := confirmedAddress s; loading := loading s; error := error s |}.
Definition setConfirmedAddress (a : string) (s : State) : State :=
  {| selectedPosition := selectedPosition s; selectedNmi := selectedNmi s;
     address := address s; confirmedAddress := a; loading := loading s; error := error s |}.
Definition setLoading (b : bool) (s : State) : State :=
  {| selectedPosition := selectedPosition s; selectedNmi := selectedNmi s;
     address := address s; confirmedAddress := confirmedAddress s;
     loading := b; error := error s |}.
Definition setError (e : string) (s : State) : State :=
  {| selectedPosition := selectedPosition s; selectedNmi := selectedNmi s;
     address := address s; confirmedAddress := confirmedAddress s;
     loading := loading s; error := e |}.

(** *** What the outside world answers *)

(** The outcome of [await fetch(url)]: the promise rejects, or a response
    arrives, of which the code reads [res.ok] and [res.json()]. *)
Inductive Fetched (B : Type) : Type :=
| Rejected
| Responded (ok : bool) (json : B).
Arguments Rejected {B}.

(** The Google geocoding endpoint, by the query of its URL. *)
Inductive GoogleQuery : Type :=
| ByLatLng (lat lng : number)
| ByAddress (address : string).

(** One element of [data.results]; [location] stands for
    [geometry.location], absent when the element has no geometry. *)
Record GeocodeResult : Type :=
  { formatted_address : string; location : option LatLng.t }.

(** The body of a Google geocoding response: [data.results] may be absent. *)
Record GeocodeData : Type := { results : option (list GeocodeResult) }.

(** The third argument of [getCurrentPosition]. *)
Record PositionOptions : Type := { enableHighAccuracy : bool; timeout : Z }.

(** Which of the two callbacks of [getCurrentPosition] is called. *)
Inductive Position : Type :=
| Fix (latitude longitude : number)
| PositionError.

(** *** Asynchronous procedures

    A procedure is the tree of what an [async] function does: calls of state
    setters, and suspension points with the continuation to run on the
    answer.  [Tick] is an [await] on the promise of an [async] call that has
    already run to its end. *)
Inductive Proc (A : Type) : Type :=
| Ret (a : A)
| Throw
| SetState (u : State -> State) (k : Proc A)
| Tick (k : Proc A)
| FetchGeocode (nmi : string) (k : Fetched Json -> Proc A)
| FetchGoogle (q : GoogleQuery) (k : Fetched GeocodeData -> Proc A)
| GetCurrentPosition (options : PositionOptions) (k : Position -> Proc A).
Arguments Throw {A}.

Fixpoint bind {A B} (p : Proc A) (f : A -> Proc B) : Proc B :=
  match p with
  | Ret a => f a
  | Throw => Throw
  | SetState u k => SetState u (bind k f)
  | Tick k => Tick (bind k f)
  | FetchGeocode n k => FetchGeocode n (fun r => bind (k r) f)
  | FetchGoogle q k => FetchGoogle q (fun r => bind (k r) f)
  | GetCurrentPosition o k => GetCurrentPosition o (fun r => bind (k r) f)
  end.

(** [try { p } catch { h }] *)
Fixpoint try_catch {A} (p : Proc A) (h : Proc A) : Proc A :=
  match p with
  | Ret a => Ret a
  | Throw => h
  | SetState u k => SetState u (try_catch k h)
  | Tick k => Tick (try_catch k h)
  | FetchGeocode n k => FetchGeocode n (fun r => try_catch (k r) h)
  | FetchGoogle q k => FetchGoogle q (fun r => try_catch (k r) h)
  | GetCurrentPosition o k => GetCurrentPosition o (fun r => try_catch (k r) h)
  end.

(** [try { p } finally { f }] *)
Fixpoint try_finally {A} (p : Proc A) (f : Proc unit) : Proc A :=
  match p with
  | Ret a => bind f (fun _ => Ret a)
  | Throw => bind f (fun _ => Throw)
  | SetState u k => SetState u (try_finally k f)
  | Tick k => Tick (try_finally k f)
  | FetchGeocode n k => FetchGeocode n (fun r => try_finally (k r) f)
  | FetchGoogle q k => FetchGoogle q (fun r => try_finally (k r) f)
  | GetCurrentPosition o k => GetCurrentPosition o (fun r => try_finally (k r) f)
  end.

Declare Scope proc_scope.
Delimit Scope proc_scope with proc.
Notation "x <- p ;; q" := (bind p (fun x => q))
  (at level 61, p at next level, right associativity) : proc_scope.
Notation "p ;; q" := (bind p (fun _ => q))
  (at level 61, right associativity) : proc_scope.
Local Open Scope proc_scope.

(** A call of a state setter. *)
Definition set (u : State -> State) : Proc unit := SetState u (Ret tt).

(** [await p], for the call [p] of an [async] function: the caller resumes
    one turn after [p] has returned or thrown. *)
Definition await {A} (p : Proc A) : Proc A :=
  try_catch (a <- p ;; Tick (Ret a)) (Tick Throw).

(** [await fetch(`/api/geocode?nmi=${nmi}`)] *)
Definition fetch_geocode (nmi : string) : Proc (bool * Json) :=
  FetchGeocode nmi (fun r =>
    match r with Rejected => Throw | Responded ok json => Ret (ok, json) end).

(** [await fetch(url)] on the Google geocoding endpoint. *)
Definition fetch_google (q : GoogleQuery) : Proc (bool * GeocodeData) :=
  FetchGoogle q (fun r =>
    match r with Rejected => Throw | Responded ok json => Ret (ok, json) end).

(** *** The functions of the component *)

(** The [for] loop of [fetchNearestNmi], over the markers still to visit and
    the current values of [minDist] and [nearest]. *)
Fixpoint nearest_loop (markers : list NmiGeocode.t) (lat lng : number)
         (minDist : number) (nearest : option NmiGeocode.t) : option NmiGeocode.t :=
  match markers with
  | [] => nearest
  | c :: rest =>
      let dist := distance c lat lng in
      if lt dist minDist
      then nearest_loop rest lat lng dist (Some c)
      else nearest_loop rest lat lng minDist nearest
  end.

(** The scan of [fetchNearestNmi] over a given directory. *)
Definition nearestIn (directory : list NmiGeocode.t) (lat lng : number)
  : option NmiGeocode.t :=
  nearest_loop directory lat lng POSITIVE_INFINITY None.

Definition fetchNearestNmi (lat lng : number) : Proc (option Json) :=
  match nearestIn nmiMarkers lat lng with
  | None => Ret None
  | Some nearest =>
      res <- fetch_geocode (NmiGeocode.nmi nearest) ;;
      if negb (fst res) then Ret None else Ret (Some (snd res))
  end.

Definition fetchAddressFromCoords (lat lng : number) : Proc string :=
  res <- fetch_google (ByLatLng lat lng) ;;
  if negb (fst res) then Ret ""
  else
    match results (snd res) with
    | Some (first :: _) => Ret (formatted_address first)
    | _ => Ret ""
    end.

Definition fetchLatLngFromAddress (address : string) : Proc (option LatLng.t) :=
  res <- fetch_google (ByAddress address) ;;
  if negb (fst res) then Ret None
  else
    match results (snd res) with
    | Some (first :: _) =>
        match location first with
        | Some l => Ret (Some (LatLng.make (LatLng.lat l) (LatLng.lng l)))
        | None => Throw
        end
    | _ => Ret None
    end.

(** [nmiGeocode && nmiGeocode.nmi], for [nmiGeocode] of its declared type
    [NmiGeocode | null]: the identifier when it is a non-empty string. *)
Definition nmi_of (nmiGeocode : option Json) : option string :=
  match nmiGeocode with
  | Some (JObject fields) =>
      match own fields "nmi" with
      | Some (JString n) => if truthy_string n then Some n else None
      | _ => None
      end
  | _ => None
  end.

Definition handleMapClick (lat lng : number) : Proc unit :=
  set (setLoading true) ;;
  set (setError "") ;;
  set (setSelectedPosition (Some (LatLng.make lat lng))) ;;
  set (setSelectedNmi None) ;;
  set (setAddress "") ;;
  set (setConfirmedAddress "") ;;
  try_finally
    (try_catch
       (nmiGeocode <- await (fetchNearestNmi lat lng) ;;
        match nmi_of nmiGeocode with
        | Some n =>
            set (setSelectedNmi (Some n)) ;;
            addr <- await (fetchAddressFromCoords lat lng) ;;
            set (setAddress addr)
        | None =>
            set (setSelectedNmi None) ;;
            set (setAddress "")
        end)
       (set (setError "Failed to fetch NMI or address")))
    (set (setLoading false)).

(** The third argument of the call of [getCurrentPosition]. *)
Definition positionOptions : PositionOptions :=
  {| enableHighAccuracy := true; timeout := 10000 |}.

(** The success and the error callback of the call of [getCurrentPosition]. *)
Definition onPosition (position : Position) : Proc unit :=
  match position with
  | Fix latitude longitude => await (handleMapClick latitude longitude)
  | PositionError =>
      set (setLoading false) ;;
      set (setError "Unable to retrieve your location. Please allow location access and try again.")
  end.

(** [geolocation] tells whether [navigator.geolocation] exists. *)
Definition handleUseCurrentLocation (geolocation : bool) : Proc unit :=
  if negb geolocation then
    set (setError "Geolocation is not supported by your browser.")
  else
    set (setLoading true) ;;
    set (setError "") ;;
    GetCurrentPosition positionOptions onPosition.

(** [address] is the value of the state variable in the render that created
    the handler. *)
Definition handleConfirm (address : string) : Proc unit :=
  set (setConfirmedAddress address) ;;
  try_catch
    (coords <- await (fetchLatLngFromAddress address) ;;
     match coords with
     | Some c => set (setSelectedPosition (Some c))
     | None => Ret tt
     end)
    (Ret tt).

(** [disabled={!address || address === confirmedAddress}] *)
Definition confirmDisabled (s : State) : bool :=
  negb (truthy_string (address s)) || String.eqb (address s) (confirmedAddress s).

(** The "Selection Details" panel. *)
Inductive Panel : Type :=
| Loading
| Failed (message : string)
| Details (nmi : string) (addressInput : string) (confirmDisabled : bool)
          (useLocationDisabled : bool) (confirmed : option string)
| Prompt.

Definition render (s : State) : Panel :=
  if loading s then Loading
  else if truthy_string (error s) then Failed (error s)
  else
    match selectedNmi s with
    | Some n =>
        if truthy_string n
        then Details n (address s) (confirmDisabled s) (loading s)
                     (if truthy_string (confirmedAddress s)
                      then Some (confirmedAddress s) else None)
        else Prompt
    | None => Prompt
    end.

(** *** Running procedures one at a time, against a given world *)

Record World : Type :=
  { geocode_api : string -> Fetched Json;
    google : GoogleQuery -> Fetched GeocodeData;
    position : PositionOptions -> Position }.

(** The final state, and the value returned ([None] when the procedure throws). *)
Fixpoint run {A} (w : World) (p : Proc A) (s : State) : State * option A :=
  match p with
  | Ret a => (s, Some a)
  | Throw => (s, None)
  | SetState u k => run w k (u s)
  | Tick k => run w k s
  | FetchGeocode n k => run w (k (geocode_api w n)) s
  | FetchGoogle q k => run w (k (google w q)) s
  | GetCurrentPosition o k => run w (k (position w o)) s
  end.

(** [res.ok] *)
Definition status_ok (status : Z) : bool := (200 <=? status) && (status <=? 299).

(** [/api/geocode] as served by this application's own handler, when the
    request gets through. *)
Definition local_geocode_api (online : bool) (nmi : string) : Fetched Json :=
  if online then
    let r := Api.Geocode.handler (Api.QString nmi) in
    Responded (status_ok (Api.status r)) (Api.body r)
  else Rejected.

(** *** The event loop: several procedures in flight

    A configuration is the component's state and the procedures suspended at
    an [await] or waiting for a callback.  Answers arrive in any order. *)

Record Config : Type := { state : State; pending : list (Proc unit) }.

Definition start : Config := {| state := initial; pending := [] |}.

(** Runs [p] up to its first suspension point. *)
Fixpoint advance (p : Proc unit) (s : State) : State * option (Proc unit) :=
  match p with
  | Ret _ => (s, None)
  | Throw => (s, None)
  | SetState u k => advance k (u s)
  | _ => (s, Some p)
  end.

Definition suspended (t : option (Proc unit)) : list (Proc unit) :=
  match t with Some p => [p] | None => [] end.

Definition spawn (p : Proc unit) (c : Config) : Config :=
  let r := advance p (state c) in
  {| state := fst r; pending := pending c ++ suspended (snd r) |}.

Inductive Answer : Type :=
| Turn
| GeocodeAnswer (r : Fetched Json)
| GoogleAnswer (r : Fetched GeocodeData)
| PositionAnswer (r : Position).

(** The continuation of a suspended procedure on an answer of its kind. *)
Definition resume (p : Proc unit) (a : Answer) : option (Proc unit) :=
  match p, a with
  | Tick k, Turn => Some k
  | FetchGeocode _ k, GeocodeAnswer r => Some (k r)
  | FetchGoogle _ k, GoogleAnswer r => Some (k r)
  | GetCurrentPosition _ k, PositionAnswer r => Some (k r)
  | _, _ => None
  end.

Fixpoint remove_nth {A} (i : nat) (l : list A) : list A :=
  match l, i with
  | [], _ => []
  | _ :: rest, O => rest
  | x :: rest, S j => x :: remove_nth j rest
  end.

Inductive Event : Type :=
| MapClick (lat lng : number)       (* a click on the map *)
| MarkerClick (i : nat)             (* a click on the i-th NMI marker *)
| UseCurrentLocation                (* the "Use device current location" button *)
| EditAddress (a : string)          (* typing, or choosing a suggested place *)
| Confirm                           (* the "Confirm Address" button *)
| Resume (i : nat) (a : Answer).    (* the i-th suspended procedure gets its answer *)

(** A click on a disabled button, or on one that is not rendered, does
    nothing; so does an answer nobody waits for. *)
Definition step (geolocation : bool) (c : Config) (e : Event) : Config :=
  match e with
  | MapClick lat lng => spawn (handleMapClick lat lng) c
  | MarkerClick i =>
      match nth_error nmiMarkers i with
      | Some marker =>
          spawn (handleMapClick (NmiGeocode.lat marker) (NmiGeocode.lng marker)) c
      | None => c
      end
  | UseCurrentLocation =>
      match render (state c) with
      | Details _ _ _ false _ => spawn (handleUseCurrentLocation geolocation) c
      | _ => c
      end
  | EditAddress a =>
      match render (state c) with
      | Details _ _ _ _ _ => {| state := setAddress a (state c); pending := pending c |}
      | _ => c
      end
  | Confirm =>
      match render (state c) with
      | Details _ _ false _ _ => spawn (handleConfirm (address (state c))) c
      | _ => c
      end
  | Resume i a =>
      match nth_error (pending c) i with
      | Some t =>
          match resume t a with
          | Some k => spawn k {| state := state c; pending := remove_nth i (pending c) |}
          | None => c
          end
      | None => c
      end
  end.

Definition exec (geolocation : bool) (c : Config) (events : list Event) : Config :=
  fold_left (step geolocation) events c.

(** *** Vocabulary of the properties *)

(** The state right after the six setter calls that open [handleMapClick]. *)
Definition selecting (lat lng : number) (s : State) : State :=
  setConfirmedAddress "" (setAddress "" (setSelectedNmi None
    (setSelectedPosition (Some (LatLng.make lat lng)) (setError "" (setLoading true s))))).

(** Every setter call of a procedure, whatever the answers it gets, is one
    of [P]. *)
Fixpoint AllSets {A} (P : (State -> State) -> Prop) (p : Proc A) : Prop :=
  match p with
  | Ret _ => True
  | Throw => True
  | SetState u k => P u /\ AllSets P k
  | Tick k => AllSets P k
  | FetchGeocode _ k => forall r, AllSets P (k r)
  | FetchGoogle _ k => forall r, AllSets P (k r)
  | GetCurrentPosition _ k => forall r, AllSets P (k r)
  end.

(** A setter call that leaves an empty [confirmedAddress] empty. *)
Definition keeps_unconfirmed (u : State -> State) : Prop :=
  forall s, confirmedAddress s = "" -> confirmedAddress (u s) = "".

(** A procedure that never confirms an address. *)
Definition quiet (p : Proc unit) : Prop := AllSets keeps_unconfirmed p.

(** [selection c e lat lng]: in configuration [c], the event [e] selects the
    coordinate [(lat, lng)]: a click on the map, a click on a marker, or a
    position fix answering a pending request of [handleUseCurrentLocation]. *)
Inductive selection (c : Config) : Event -> number -> number -> Prop :=
| select_map lat lng : selection c (MapClick lat lng) lat lng
| select_marker i marker :
    nth_error nmiMarkers i = Some marker ->
    selection c (MarkerClick i) (NmiGeocode.lat marker) (NmiGeocode.lng marker)
| select_fix i latitude longitude :
    nth_error (pending c) i = Some (GetCurrentPosition positionOptions onPosition) ->
    selection c (Resume i (PositionAnswer (Fix latitude longitude))) latitude longitude.

(** A world in which the application's own handler serves [/api/geocode] and
    the geocoding service knows one address. *)
Definition sample_world : World :=
  {| geocode_api := local_geocode_api true;
     google := fun _ =>
       Responded true
         {| results := Some [{| formatted_address := "1 Market St, Sydney";
                                location := Some (LatLng.make (-33.8708)%float
                                                              151.2073%float) |}] |};
     position := fun _ => PositionError |}.

(** The event is no click on an enabled "Confirm Address" button. *)
Definition is_confirm (e : Event) : bool :=
  match e with Confirm => true | _ => false end.

End MapWithNmi.

(** ** The rest of the components *)

(** The markers [MapWithNmi.tsx] draws on the map. *)
Module MapView.
Import Js MapWithNmi.





End MapView.

(** [fetchAddressForNmi] of [MapWithNmi.tsx], which no handler calls.  Its
    only suspension is the fetch of [/api/addressfinder]; [api] gives what
    that fetch yields.  The result is [None] when the function throws. *)
Module AddressLookup.
Import Js MapWithNmi.

Definition fetchAddressForNmi (api : string -> Fetched Json) (nmi : string)
  : option (option Json) :=
  match api nmi with
  | Rejected => None
  | Responded ok json => if negb ok then Some None else Some (Some json)
  end.

(** Letters and digits: the characters the URL
    [/api/addressfinder?nmi=${nmi}], built without encoding, carries to the
    handler unchanged. *)
Definition plain_char (c : ascii) : bool :=
  let n := nat_of_ascii c in
  (Nat.leb 48 n && Nat.leb n 57) || (Nat.leb 65 n && Nat.leb n 90)
  || (Nat.leb 97 n && Nat.leb n 122).

Fixpoint plain (nmi : string) : bool :=
  match nmi with
  | EmptyString => true
  | String c rest => plain_char c && plain rest
  end.

(** What the fetch of [/api/addressfinder?nmi=${nmi}] yields when this
    application's own handler serves it, for an identifier of letters and
    digits.  Any other identifier is read again by the parsing of the URL,
    which is not modelled: the answer is then left open ([None]). *)
Definition local_addressfinder_api (online : bool) (nmi : string)
  : option (Fetched Json) :=
  if plain nmi then
    Some (if online then
            let r := Api.Addressfinder.handler (Api.QString nmi) in
            Responded (status_ok (Api.status r)) (Api.body r)
          else Rejected)
  else None.

(** [api] answers as the own handler does, wherever that is modelled. *)
Definition serves (online : bool) (api : string -> Fetched Json) : Prop :=
  forall nmi r, local_addressfinder_api online nmi = Some r -> api nmi = r.

End AddressLookup.

(** The text field of [App.tsx]: [AddressFinderAutocomplete] keeps its own
    state [input], initialised by [useState(initialAddress)] when the
    component mounts.  It is mounted while the details panel is rendered. *)
Module AppField.

(** [input] is [None] while the component is not mounted. *)
Record Ui : Type := { app : App.State; input : option string }.

Definition begin : Ui := {| app := App.initial; input := None |}.

Definition shown (s : App.State) : bool :=
  match App.render s with
  | App.Details _ _ _ _ => true
  | App.Prompt => false
  end.

(** The state of the field after a render of the parent in state [s]: kept
    while mounted, initialised from the [initialAddress] property on mount,
    dropped on unmount. *)
Definition rerender (input : option string) (s : App.State) : option string :=
  if shown s then
    match input with
    | Some text => Some text
    | None => Some (App.address s)
    end
  else None.

(** [onChange] calls [setInput(e.target.value)] and [onAddressChange]. *)
Definition step (u : Ui) (e : App.Event) : Ui :=
  let typed :=
    match e, input u with
    | App.EditAddress a, Some _ => Some a
    | _, i => i
    end in
  {| app := App.step (app u) e; input := rerender typed (App.step (app u) e) |}.

Definition exec (u : Ui) (events : list App.Event) : Ui := fold_left step events u.

End AppField.

(** The text field of [MapWithNmi.tsx]: [GooglePlacesAutocomplete] keeps its
    own state [inputValue], initialised by [useState(initialAddress)] and set
    again by the effect [useEffect(() => setInputValue(initialAddress),
    [initialAddress])].  The setter calls of one turn of the event loop are
    rendered together. *)
Module PlacesField.
Import MapWithNmi.

(** [inputValue] is [None] while the component is not mounted. *)
Record Ui : Type := { config : Config; inputValue : option string }.

Definition begin : Ui := {| config := start; inputValue := None |}.

Definition shown (s : State) : bool :=
  match render s with
  | Details _ _ _ _ _ => true
  | _ => false
  end.

(** The state of the field after a render of the parent in state [s], given
    the text it held and the [initialAddress] of the previous render: on
    mount [useState(initialAddress)]; while mounted the effect runs when
    [initialAddress] has changed. *)
Definition rerender (before : option (string * string)) (s : State) : option string :=
  if shown s then
    match before with
    | Some (text, initialAddress) =>
        if String.eqb initialAddress (address s) then Some text else Some (address s)
    | None => Some (address s)
    end
  else None.

(** [onChange] and [handlePlaceChanged] call [setInputValue] and
    [onAddressChange] with the same string. *)
Definition step (geolocation : bool) (u : Ui) (e : Event) : Ui :=
  let typed :=
    match e, inputValue u with
    | EditAddress a, Some _ => Some a
    | _, i => i
    end in
  let c := MapWithNmi.step geolocation (config u) e in
  {| config := c;
     inputValue :=
       rerender (option_map (fun text => (text, address (state (config u)))) typed)
                (state c) |}.

Definition exec (geolocation : bool) (u : Ui) (events : list Event) : Ui :=
  fold_left (step geolocation) events u.

(** The text of the field of [tsx] is the draft address. *)
Definition field_in_sync (u : Ui) : Prop :=
  match inputValue u with
  | Some text =>
      text = address (state (config u)) /\
      shown (state (config u)) = true
  | None => shown (state (config u)) = false
  end.

End PlacesField.

(** Vocabulary of the properties of the event loop. *)
Module LoopSpec.
Import MapWithNmi.


(** A setter call that does not write [loading]. *)
Definition keeps_loading (u : State -> State) : Prop :=
  forall s, loading (u s) = loading s.

(** A setter call that clears [loading]. *)
Definition clears_loading (u : State -> State) : Prop :=
  forall s, loading (u s) = false.

(** On every path to its end, the procedure clears [loading] and does not
    write it afterwards. *)
Fixpoint EndsIdle {A} (p : Proc A) : Prop :=
  match p with
  | Ret _ => False
  | Throw => False
  | SetState u k => (clears_loading u /\ AllSets keeps_loading k) \/ EndsIdle k
  | Tick k => EndsIdle k
  | FetchGeocode _ k => forall r, EndsIdle (k r)
  | FetchGoogle _ k => forall r, EndsIdle (k r)
  | GetCurrentPosition _ k => forall r, EndsIdle (k r)
  end.

(** A setter call that keeps [confirmedAddress] or empties it. *)
Definition keeps_or_clears_confirmed (u : State -> State) : Prop :=
  forall s, confirmedAddress (u s) = confirmedAddress s \/ confirmedAddress (u s) = "".

(** A setter call that does not write [selectedPosition]. *)
Definition keeps_position (u : State -> State) : Prop :=
  forall s, selectedPosition (u s) = selectedPosition s.

(** The answer of the geocoding service that knows one address. *)
Definition one_address (a : string) : Fetched GeocodeData :=
  Responded true {| results := Some [{| formatted_address := a; location := None |}] |}.

(** The events that carry one [handleMapClick], suspended as the [i]-th
    procedure, to its end: the answer of [/api/geocode] for [nmi], a turn,
    the answer of the geocoding service, a turn. *)
Definition completes (i : nat) (nmi : string) (google : Fetched GeocodeData) : list Event :=
  [ Resume i (GeocodeAnswer (local_geocode_api true nmi)); Resume i Turn;
    Resume i (GoogleAnswer google); Resume i Turn ].

(** The invariant: every pending procedure either ends idle or never writes
    [loading], and while [loading] is set one that ends idle is pending. *)
Definition spinner_inv (c : Config) : Prop :=
  Forall (fun t => EndsIdle t \/ AllSets keeps_loading t) (pending c) /\
  (loading (state c) = true -> Exists EndsIdle (pending c)).

End LoopSpec.

(** * Properties *)

Local Open Scope list_scope.
Unset Implicit Arguments.

(** ** Facts about numbers *)

Module NumberFacts.

(** *** The order on the specification floats *)

Ltac cmp_cases :=
  repeat match goal with
         | |- context [Z.compare ?a ?b] => destruct (Z.compare_spec a b)
         | H : context [Z.compare ?a ?b] |- _ => destruct (Z.compare_spec a b)
         | |- context [Pos.compare_cont Eq ?a ?b] =>
             change (Pos.compare_cont Eq a b) with (Pos.compare a b);
             destruct (Pos.compare_spec a b)
         | H : context [Pos.compare_cont Eq ?a ?b] |- _ =>
             change (Pos.compare_cont Eq a b) with (Pos.compare a b) in H;
             destruct (Pos.compare_spec a b)
         end.

Ltac sf_order :=
  unfold SFltb, SFleb, SFcompare; intros;
  repeat match goal with x : spec_float |- _ => destruct x as [[]|[]| |[] ? ?] end;
  simpl in *; try discriminate; try reflexivity;
  cmp_cases; simpl in *; subst; try discriminate; try reflexivity; try lia.

Lemma SFltb_trans x y z :
  SFltb x y = true -> SFltb y z = true -> SFltb x z = true.
Proof. revert x y z. sf_order. Qed.

Lemma SFleb_ltb_trans x y z :
  SFleb x y = true -> SFltb y z = true -> SFltb x z = true.
Proof. revert x y z. sf_order. Qed.

Lemma SFltb_not_leb x y : SFltb x y = true -> SFleb y x = false.
Proof. revert x y. sf_order. Qed.

Lemma SFltb_leb x y : SFltb x y = true -> SFleb x y = true.
Proof. revert x y. sf_order. Qed.

Lemma SFeqb_refl_nan x : SFeqb x x = false -> x = S754_nan.
Proof.
  unfold SFeqb, SFcompare. destruct x as [[]|[]| |[] m e]; simpl;
    try discriminate; try reflexivity;
    rewrite Z.compare_refl;
    change (Pos.compare_cont Eq m m) with (Pos.compare m m);
    rewrite Pos.compare_refl; discriminate.
Qed.

(** *** The same facts on numbers *)

Lemma lt_trans a b c : lt a b = true -> lt b c = true -> lt a c = true.
Proof. unfold lt. rewrite !ltb_spec. apply SFltb_trans. Qed.

Lemma le_lt_trans a b c : le a b = true -> lt b c = true -> lt a c = true.
Proof. unfold lt, le. rewrite !ltb_spec, leb_spec. apply SFleb_ltb_trans. Qed.

Lemma lt_not_le a b : lt a b = true -> le b a = false.
Proof. unfold lt, le. rewrite ltb_spec, leb_spec. apply SFltb_not_leb. Qed.

Lemma lt_le a b : lt a b = true -> le a b = true.
Proof. unfold lt, le. rewrite ltb_spec, leb_spec. apply SFltb_leb. Qed.

Lemma not_le_not_lt a b : le a b = false -> lt a b = false.
Proof.
  intros H. destruct (lt a b) eqn:E; [|reflexivity].
  apply lt_le in E. congruence.
Qed.

(** *** NaN propagation *)

Lemma isNaN_spec x : isNaN x = true -> Prim2SF x = S754_nan.
Proof.
  unfold isNaN, PrimFloat.is_nan. rewrite FloatAxioms.eqb_spec.
  intros H. apply SFeqb_refl_nan. now destruct (SFeqb _ _).
Qed.

Lemma sub_nan_r x y : Prim2SF y = S754_nan -> Prim2SF (PrimFloat.sub x y) = S754_nan.
Proof.
  intros H. rewrite sub_spec, H. unfold SF64sub, SFsub.
  now destruct (Prim2SF x) as [[]|[]| |[] ? ?].
Qed.

Lemma pow2_nan x : Prim2SF x = S754_nan -> Prim2SF (pow2 x) = S754_nan.
Proof. intros H. unfold pow2. now rewrite mul_spec, H. Qed.

Lemma add_nan_l x y : Prim2SF x = S754_nan -> Prim2SF (PrimFloat.add x y) = S754_nan.
Proof. intros H. now rewrite add_spec, H. Qed.

Lemma add_nan_r x y : Prim2SF y = S754_nan -> Prim2SF (PrimFloat.add x y) = S754_nan.
Proof.
  intros H. rewrite add_spec, H. unfold SF64add, SFadd.
  now destruct (Prim2SF x) as [[]|[]| |[] ? ?].
Qed.

Lemma sqrt_nan x : Prim2SF x = S754_nan -> Prim2SF (Math_sqrt x) = S754_nan.
Proof. intros H. unfold Math_sqrt. now rewrite sqrt_spec, H. Qed.

Lemma lt_nan_l x y : Prim2SF x = S754_nan -> lt x y = false.
Proof. intros H. unfold lt. now rewrite ltb_spec, H. Qed.

Lemma distance_nan c lat lng :
  isNaN lat = true \/ isNaN lng = true -> Prim2SF (distance c lat lng) = S754_nan.
Proof.
  intros H. unfold distance. apply sqrt_nan.
  destruct H as [H | H]; apply isNaN_spec in H.
  - apply add_nan_l, pow2_nan, sub_nan_r, H.
  - apply add_nan_r, pow2_nan, sub_nan_r, H.
Qed.

End NumberFacts.

(** ** The nearest-NMI resolver *)

Module ResolverFacts.
Import NumberFacts.

Section Scan.

Variables lat lng : number.

Let d (c : NmiGeocode.t) : number := distance c lat lng.

(** What the loop of [fetchNearestNmi] returns, from any intermediate values
    of [minDist] and [nearest]: either no entry is below [minDist] and
    [nearest] is kept, or the result is the first entry of least distance
    among those below [minDist]. *)
Lemma nearest_loop_spec (markers : list NmiGeocode.t) :
  forall minDist nearest,
    (MapWithNmi.nearest_loop markers lat lng minDist nearest = nearest /\
     Forall (fun c => lt (d c) minDist = false) markers)
    \/
    (exists before r after,
        markers = before ++ r :: after /\
        MapWithNmi.nearest_loop markers lat lng minDist nearest = Some r /\
        lt (d r) minDist = true /\
        Forall (fun c => le (d c) (d r) = false) before /\
        Forall (fun c => lt (d c) (d r) = false) after).
Proof.
  induction markers as [|c rest IH]; intros minDist nearest; simpl.
  - left. split; [reflexivity | constructor].
  - fold (d c). destruct (lt (d c) minDist) eqn:Hc.
    + right. destruct (IH (d c) (Some c)) as [[Hr Hall] | (before & r & after & E & Hr & Hlt & Hb & Ha)].
      * exists [], c, rest. repeat split; auto.
      * exists (c :: before), r, after. subst rest. repeat split; auto.
        -- eapply lt_trans; eassumption.
        -- constructor; [now apply lt_not_le | assumption].
    + destruct (IH minDist nearest) as [[Hr Hall] | (before & r & after & E & Hr & Hlt & Hb & Ha)].
      * left. split; [assumption | constructor; assumption].
      * right. exists (c :: before), r, after. subst rest. repeat split; auto.
        constructor; [| assumption].
        destruct (le (d c) (d r)) eqn:Hle; [| reflexivity].
        rewrite (le_lt_trans _ _ _ Hle Hlt) in Hc. discriminate.
Qed.

(** The loop of [findNearestNmi] tracks the identifier of the entry the loop
    of [fetchNearestNmi] tracks. *)
Lemma loops_agree (entries : list NmiGeocode.t) :
  forall minDist nearest,
    App.findNearestNmi_loop entries lat lng minDist (option_map NmiGeocode.nmi nearest)
    = option_map NmiGeocode.nmi (MapWithNmi.nearest_loop entries lat lng minDist nearest).
Proof.
  induction entries as [|c rest IH]; intros minDist nearest; simpl.
  - reflexivity.
  - destruct (lt (distance c lat lng) minDist).
    + apply (IH _ (Some c)).
    + apply IH.
Qed.

Lemma nearestIn_none (directory : list NmiGeocode.t) :
  MapWithNmi.nearestIn directory lat lng = None <->
  Forall (fun c => lt (d c) POSITIVE_INFINITY = false) directory.
Proof.
  unfold MapWithNmi.nearestIn.
  destruct (nearest_loop_spec directory POSITIVE_INFINITY None)
    as [[Hr Hall] | (before & r & after & E & Hr & Hlt & Hb & Ha)].
  - split; auto.
  - rewrite Hr. split; [discriminate |].
    intros Hall. subst directory.
    apply Forall_app in Hall. destruct Hall as [_ Hall].
    inversion Hall as [|? ? Hr' _]; subst. simpl in Hr'. congruence.
Qed.

Lemma nearestIn_some (directory : list NmiGeocode.t) (r : NmiGeocode.t) :
  MapWithNmi.nearestIn directory lat lng = Some r ->
  exists before after,
    directory = before ++ r :: after /\
    lt (d r) POSITIVE_INFINITY = true /\
    Forall (fun c => le (d c) (d r) = false) before /\
    Forall (fun c => lt (d c) (d r) = false) after.
Proof.
  unfold MapWithNmi.nearestIn. intros H.
  destruct (nearest_loop_spec directory POSITIVE_INFINITY None)
    as [[Hr Hall] | (before & r' & after & E & Hr & Hlt & Hb & Ha)].
  - congruence.
  - assert (r' = r) by congruence. subst r'. eauto 6.
Qed.

Lemma findNearestNmiIn_nearestIn (directory : list NmiGeocode.t) :
  App.findNearestNmiIn directory lat lng
  = option_map NmiGeocode.nmi (MapWithNmi.nearestIn directory lat lng).
Proof. exact (loops_agree directory POSITIVE_INFINITY None). Qed.

End Scan.

Lemma nearestIn_nan (directory : list NmiGeocode.t) (lat lng : number) :
  isNaN lat = true \/ isNaN lng = true ->
  MapWithNmi.nearestIn directory lat lng = None.
Proof.
  intros H. apply nearestIn_none. apply Forall_forall. intros c _.
  apply lt_nan_l, distance_nan, H.
Qed.

End ResolverFacts.

Module Resolver.
Import NumberFacts ResolverFacts.

Lemma lt_irrefl (a : number) : lt a a = false.
Proof.
  destruct (lt a a) eqn:E; [| reflexivity].
  pose proof (lt_not_le _ _ E) as H. rewrite (lt_le _ _ E) in H. discriminate.
Qed.

(** The spec's example: [resolve(-33.87, 151.21)] is the first entry. *)
Example resolve_sydney :
  App.findNearestNmi (-33.87)%float 151.21%float = Some "NMI001" /\
  option_map NmiGeocode.nmi
    (MapWithNmi.nearestIn MapWithNmi.nmiMarkers (-33.87)%float 151.21%float)
  = Some "NMI001".
Proof. split; vm_compute; reflexivity. Qed.

(** C1, as stated, fails: at the finite input (1e200, 0) every squared
    difference overflows to +Infinity, no distance compares below the initial
    [minDist], and both resolvers return none although their directories hold
    three records. *)
Lemma resolver_none_on_three_records :
  App.findNearestNmi 1e200%float 0%float = None /\
  MapWithNmi.nearestIn MapWithNmi.nmiMarkers 1e200%float 0%float = None /\
  List.length App.mockNmiData = 3%nat /\
  List.length MapWithNmi.nmiMarkers = 3%nat.
Proof. repeat split; vm_compute; reflexivity. Qed.

(** C1 (amended): for every directory and every input coordinate pair, the
    scan returns none exactly when no record's computed distance
    [sqrt((r.lat-lat)^2 + (r.lng-lng)^2)] compares below +Infinity, which
    includes the empty directory; when it returns a record [r], that record is
    in the directory, no record is strictly nearer than [r], every record that
    precedes [r] in directory order is strictly farther or has no comparable
    distance, and [findNearestNmi] returns the identifier of [r]. *)
Theorem resolver_returns_first_nearest
        (directory : list NmiGeocode.t) (lat lng : number) :
  (MapWithNmi.nearestIn directory lat lng = None <->
   Forall (fun c => lt (distance c lat lng) POSITIVE_INFINITY = false) directory)
  /\ (directory = [] -> MapWithNmi.nearestIn directory lat lng = None)
  /\ (forall r, MapWithNmi.nearestIn directory lat lng = Some r ->
        lt (distance r lat lng) POSITIVE_INFINITY = true /\
        Forall (fun c => lt (distance c lat lng) (distance r lat lng) = false) directory /\
        exists before after,
          directory = before ++ r :: after /\
          Forall (fun c => le (distance c lat lng) (distance r lat lng) = false) before)
  /\ App.findNearestNmiIn directory lat lng
     = option_map NmiGeocode.nmi (MapWithNmi.nearestIn directory lat lng).
Proof.
  split; [apply nearestIn_none |].
  split; [intros ->; reflexivity |].
  split; [| apply findNearestNmiIn_nearestIn].
  intros r Hr.
  destruct (nearestIn_some _ _ _ _ Hr) as (before & after & E & Hfin & Hb & Ha).
  split; [exact Hfin |]. split.
  - subst directory. apply Forall_app. split.
    + eapply Forall_impl; [| exact Hb]. intros c Hc. now apply not_le_not_lt.
    + constructor; [apply lt_irrefl | exact Ha].
  - exists before, after. split; assumption.
Qed.

(** C9: when the latitude or the longitude is NaN, every computed distance is
    NaN, none compares below the initial +Infinity, and both resolvers return
    none ([fetchNearestNmi] without issuing any request) although their
    directories are not empty. *)
Theorem nan_input_resolves_to_none (lat lng : number) :
  isNaN lat = true \/ isNaN lng = true ->
  App.findNearestNmi lat lng = None /\
  MapWithNmi.nearestIn MapWithNmi.nmiMarkers lat lng = None /\
  MapWithNmi.fetchNearestNmi lat lng = MapWithNmi.Ret None /\
  App.mockNmiData <> [] /\ MapWithNmi.nmiMarkers <> [].
Proof.
  intros H.
  assert (Hn : MapWithNmi.nearestIn MapWithNmi.nmiMarkers lat lng = None)
    by (apply nearestIn_nan, H).
  repeat split.
  - unfold App.findNearestNmi. rewrite findNearestNmiIn_nearestIn.
    now rewrite (nearestIn_nan App.mockNmiData lat lng H).
  - exact Hn.
  - unfold MapWithNmi.fetchNearestNmi. now rewrite Hn.
  - discriminate.
  - discriminate.
Qed.

Lemma nan_input_resolves_to_none_at_nan :
  (isNaN PrimFloat.nan = true \/ isNaN 0%float = true) /\
  App.findNearestNmi PrimFloat.nan 0%float = None /\
  MapWithNmi.nearestIn MapWithNmi.nmiMarkers PrimFloat.nan 0%float = None.
Proof.
  assert (H : isNaN PrimFloat.nan = true \/ isNaN 0%float = true)
    by (left; reflexivity).
  split; [exact H |].
  destruct (nan_input_resolves_to_none PrimFloat.nan 0%float H) as (H1 & H2 & _).
  split; assumption.
Defined.

(** [findNearestNmi] only returns identifiers that are own keys of
    [mockAddressData], with a non-empty address. *)
Lemma findNearestNmi_own_key (lat lng : number) (n : string) :
  App.findNearestNmi lat lng = Some n ->
  exists a, Js.get App.mockAddressData n = Js.Own a /\ App.addressOf (Some n) = Some a.
Proof.
  unfold App.findNearestNmi. rewrite findNearestNmiIn_nearestIn.
  destruct (MapWithNmi.nearestIn App.mockNmiData lat lng) as [r|] eqn:Hr; [| discriminate].
  destruct (nearestIn_some _ _ _ _ Hr) as (before & after & E & _).
  assert (Hin : In r App.mockNmiData) by (rewrite E; apply in_or_app; right; left; reflexivity).
  intros H. injection H as <-.
  destruct Hin as [<- | [<- | [<- | []]]]; eexists; split; reflexivity.
Qed.

(** C10: the two hardcoded directories are equal element by element, and for
    every input coordinate pair [findNearestNmi] returns the identifier of the
    record the scan of [fetchNearestNmi] selects, or both select none. *)
Theorem resolvers_agree (lat lng : number) :
  App.mockNmiData = MapWithNmi.nmiMarkers /\
  App.findNearestNmi lat lng
  = option_map NmiGeocode.nmi (MapWithNmi.nearestIn MapWithNmi.nmiMarkers lat lng).
Proof.
  split; [reflexivity |].
  apply (findNearestNmiIn_nearestIn lat lng MapWithNmi.nmiMarkers).
Qed.

End Resolver.

(** ** The lookup service *)

Module Lookup.
Import Js Api.

Lemma own_mockAddressData (nmi : string) :
  own Addressfinder.mockAddressData nmi =
  if String.eqb "NMI001" nmi then Some "1 Market St, Sydney NSW 2000, Australia"
  else if String.eqb "NMI002" nmi then Some "123 Collins St, Melbourne VIC 3000, Australia"
  else if String.eqb "NMI003" nmi then Some "456 Queen St, Brisbane QLD 4000, Australia"
  else None.
Proof. reflexivity. Qed.

Lemma own_nmiGeocodeData (nmi : string) :
  own Geocode.nmiGeocodeData nmi =
  if String.eqb "NMI001" nmi then Some (LatLng.make (-33.8708)%float 151.2073%float)
  else if String.eqb "NMI002" nmi then Some (LatLng.make (-37.8136)%float 144.9631%float)
  else if String.eqb "NMI003" nmi then Some (LatLng.make (-27.4698)%float 153.0251%float)
  else None.
Proof. reflexivity. Qed.

(** Both directories have the same own keys. *)
Lemma same_own_keys (nmi : string) :
  own Addressfinder.mockAddressData nmi = None <->
  own Geocode.nmiGeocodeData nmi = None.
Proof.
  rewrite own_mockAddressData, own_nmiGeocodeData.
  repeat destruct (String.eqb _ nmi); split; (discriminate || reflexivity).
Qed.

(** What the claim says of the handlers holds for a missing or repeated
    parameter, for the identifiers of the directories, and for every
    identifier that is not the name of a member of [Object.prototype]. *)
Lemma handlers_on_plain_identifiers :
  Addressfinder.handler QAbsent = bad_request /\
  Geocode.handler QAbsent = bad_request /\
  (forall l, Addressfinder.handler (QArray l) = bad_request /\
             Geocode.handler (QArray l) = bad_request) /\
  (forall nmi, inherited nmi = false ->
     own Addressfinder.mockAddressData nmi = None ->
     Addressfinder.handler (QString nmi) = not_found) /\
  (forall nmi, inherited nmi = false ->
     own Geocode.nmiGeocodeData nmi = None ->
     Geocode.handler (QString nmi) = not_found) /\
  (forall nmi address, own Addressfinder.mockAddressData nmi = Some address ->
     Addressfinder.handler (QString nmi)
     = respond 200 [("nmi", JString nmi); ("address", JString address)]) /\
  (forall nmi g, own Geocode.nmiGeocodeData nmi = Some g ->
     Geocode.handler (QString nmi)
     = respond 200 [("nmi", JString nmi);
                    ("lat", JNumber (LatLng.lat g)); ("lng", JNumber (LatLng.lng g))]).
Proof.
  repeat split; try reflexivity.
  - intros nmi Hi Ho. unfold Addressfinder.handler, get. now rewrite Ho, Hi.
  - intros nmi Hi Ho. unfold Geocode.handler, get. now rewrite Ho, Hi.
  - intros nmi address Ho. unfold Addressfinder.handler, get. rewrite Ho.
    rewrite own_mockAddressData in Ho.
    repeat destruct (String.eqb _ nmi); inversion Ho; reflexivity.
  - intros nmi g Ho. unfold Geocode.handler, get. now rewrite Ho.
Qed.

Example geocode_NMI002 :
  Geocode.handler (QString "NMI002")
  = respond 200 [("nmi", JString "NMI002");
                 ("lat", JNumber (-37.8136)%float); ("lng", JNumber 144.9631%float)].
Proof. reflexivity. Qed.

Example geocode_UNKNOWN : Geocode.handler (QString "UNKNOWN") = not_found.
Proof. reflexivity. Qed.

(** C4 fails on the code for an identifier that is absent from the directory
    but names a member of [Object.prototype]: [nmiGeocodeData["constructor"]]
    and [mockAddressData["constructor"]] are the inherited function, which is
    truthy, so both handlers answer 200 with a body that holds the identifier
    alone, where the claim says 404. *)
Theorem handlers_serve_inherited_keys :
  own Geocode.nmiGeocodeData "constructor" = None /\
  Geocode.handler (QString "constructor") = respond 200 [("nmi", JString "constructor")] /\
  own Addressfinder.mockAddressData "constructor" = None /\
  Addressfinder.handler (QString "constructor")
  = respond 200 [("nmi", JString "constructor")].
Proof. repeat split. Qed.

(** C8: every identifier of the Address Directory is an identifier of the NMI
    Directory (the one of the geocode handler and the two of the clients), and
    for every request a 200 from [/api/addressfinder] implies a 200 from
    [/api/geocode]. *)
Theorem address_keys_are_nmi_keys (nmi : string) (q : QueryValue) :
  (In nmi (keys Addressfinder.mockAddressData) -> In nmi (keys Geocode.nmiGeocodeData))
  /\ (In nmi (keys App.mockAddressData) -> In nmi (map NmiGeocode.nmi App.mockNmiData))
  /\ (In nmi (keys Addressfinder.mockAddressData) ->
      In nmi (map NmiGeocode.nmi MapWithNmi.nmiMarkers))
  /\ (status (Addressfinder.handler q) = 200 -> status (Geocode.handler q) = 200).
Proof.
  repeat split; try (intros H; exact H).
  destruct q as [| id | l]; try discriminate.
  unfold Addressfinder.handler, Geocode.handler, get.
  destruct (own Addressfinder.mockAddressData id) as [a|] eqn:Ha.
  - destruct (own Geocode.nmiGeocodeData id) as [g|] eqn:Hg; [reflexivity |].
    apply same_own_keys in Hg. congruence.
  - apply same_own_keys in Ha. rewrite Ha.
    destruct (inherited id); [reflexivity | discriminate].
Qed.

End Lookup.

(** ** The selection controller *)

Module ProcFacts.
Import Js MapWithNmi.
Local Open Scope proc_scope.

(** *** Running composite procedures *)

Lemma run_bind {A B} (w : World) (p : Proc A) (f : A -> Proc B) (s : State) :
  run w (bind p f) s =
  match snd (run w p s) with
  | Some a => run w (f a) (fst (run w p s))
  | None => (fst (run w p s), None)
  end.
Proof.
  revert s. induction p as [a| |u k IH|k IH|n k IH|q k IH|o k IH]; intros s; simpl; auto.
Qed.

Lemma run_try_catch {A} (w : World) (p h : Proc A) (s : State) :
  run w (try_catch p h) s =
  match snd (run w p s) with
  | Some a => (fst (run w p s), Some a)
  | None => run w h (fst (run w p s))
  end.
Proof.
  revert s. induction p as [a| |u k IH|k IH|n k IH|q k IH|o k IH]; intros s; simpl; auto.
Qed.


Lemma run_await {A} (w : World) (p : Proc A) (s : State) :
  run w (await p) s = run w p s.
Proof.
  unfold await. rewrite run_try_catch, run_bind.
  destruct (run w p s) as [s1 [a|]]; reflexivity.
Qed.

Lemma run_set (w : World) (u : State -> State) (s : State) :
  run w (set u) s = (u s, Some tt).
Proof. reflexivity. Qed.

(** The three fetching functions call no state setter. *)
Lemma run_fetchNearestNmi (w : World) (lat lng : number) (s : State) :
  run w (fetchNearestNmi lat lng) s
  = (s, snd (run w (fetchNearestNmi lat lng) initial)).
Proof.
  unfold fetchNearestNmi. destruct (nearestIn nmiMarkers lat lng) as [c|]; simpl; auto.
  destruct (geocode_api w (NmiGeocode.nmi c)) as [|[] j]; reflexivity.
Qed.


Lemma run_fetchLatLngFromAddress (w : World) (a : string) (s : State) :
  run w (fetchLatLngFromAddress a) s
  = (s, snd (run w (fetchLatLngFromAddress a) initial)).
Proof.
  unfold fetchLatLngFromAddress. simpl.
  destruct (google w (ByAddress a)) as [|[] [[[|[f [l|]] r]|]]]; reflexivity.
Qed.

End ProcFacts.

Module LoopFacts.
Import Js MapWithNmi ProcFacts.
Local Open Scope proc_scope.

(** *** Setter calls of composite procedures *)

Section AllSets.

Variable P : (State -> State) -> Prop.

Lemma AllSets_bind {A B} (p : Proc A) (f : A -> Proc B) :
  AllSets P p -> (forall a, AllSets P (f a)) -> AllSets P (bind p f).
Proof.
  induction p as [a| |u k IH|k IH|n k IH|q k IH|o k IH]; simpl; intros Hp Hf; auto.
  destruct Hp; auto.
Qed.

Lemma AllSets_try_catch {A} (p h : Proc A) :
  AllSets P p -> AllSets P h -> AllSets P (try_catch p h).
Proof.
  induction p as [a| |u k IH|k IH|n k IH|q k IH|o k IH]; simpl; intros Hp Hh; auto.
  destruct Hp; auto.
Qed.

Lemma AllSets_try_finally {A} (p : Proc A) (f : Proc unit) :
  AllSets P p -> AllSets P f -> AllSets P (try_finally p f).
Proof.
  induction p as [a| |u k IH|k IH|n k IH|q k IH|o k IH]; simpl; intros Hp Hf; auto.
  - apply AllSets_bind; simpl; auto.
  - apply AllSets_bind; simpl; auto.
  - destruct Hp; auto.
Qed.

Lemma AllSets_await {A} (p : Proc A) : AllSets P p -> AllSets P (await p).
Proof.
  intros Hp. unfold await. apply AllSets_try_catch; simpl; auto.
  apply AllSets_bind; simpl; auto.
Qed.

Lemma AllSets_set (u : State -> State) : P u -> AllSets P (set u).
Proof. simpl; auto. Qed.

Lemma AllSets_fetchNearestNmi lat lng : AllSets P (fetchNearestNmi lat lng).
Proof.
  unfold fetchNearestNmi. destruct (nearestIn nmiMarkers lat lng); simpl; auto.
  intros [|[] j]; simpl; auto.
Qed.

Lemma AllSets_fetchAddressFromCoords lat lng : AllSets P (fetchAddressFromCoords lat lng).
Proof.
  unfold fetchAddressFromCoords. simpl. intros [|[] [[[|g l]|]]]; simpl; auto.
Qed.

Lemma AllSets_fetchLatLngFromAddress a : AllSets P (fetchLatLngFromAddress a).
Proof.
  unfold fetchLatLngFromAddress. simpl. intros [|[] [[[|[f [l|]] r]|]]]; simpl; auto.
Qed.

Lemma AllSets_advance (p : Proc unit) (s : State) :
  AllSets P p -> Forall (AllSets P) (suspended (snd (advance p s))).
Proof.
  revert s. induction p as [a| |u k IH|k IH|n k IH|q k IH|o k IH]; intros s Hp; simpl;
    try (constructor; [exact Hp | constructor]); try constructor.
  destruct Hp. auto.
Qed.

Lemma AllSets_resume (t k : Proc unit) (a : Answer) :
  AllSets P t -> resume t a = Some k -> AllSets P k.
Proof.
  destruct t, a; simpl; intros Ht E; inversion E; subst; auto.
Qed.

End AllSets.

Lemma Forall_remove_nth {A} (Q : A -> Prop) (i : nat) (l : list A) :
  Forall Q l -> Forall Q (remove_nth i l).
Proof.
  revert i. induction l as [|x l IH]; intros i H; simpl.
  - destruct i; constructor.
  - inversion H; subst. destruct i; [assumption | constructor; auto].
Qed.

(** *** Procedures that never confirm an address *)

Ltac quiet_set := apply AllSets_set; intros ? ?; simpl; auto.

Lemma quiet_handleMapClick lat lng : quiet (handleMapClick lat lng).
Proof.
  unfold quiet, handleMapClick.
  repeat (apply AllSets_bind; [quiet_set | intros _]).
  apply AllSets_try_finally; [| quiet_set].
  apply AllSets_try_catch; [| quiet_set].
  apply AllSets_bind; [apply AllSets_await, AllSets_fetchNearestNmi |].
  intros j. destruct (nmi_of j).
  - apply AllSets_bind; [quiet_set | intros _].
    apply AllSets_bind; [apply AllSets_await, AllSets_fetchAddressFromCoords |].
    intros a. quiet_set.
  - apply AllSets_bind; [quiet_set | intros _]. quiet_set.
Qed.

Lemma quiet_onPosition r : quiet (onPosition r).
Proof.
  destruct r as [la lo|]; unfold quiet, onPosition.
  - apply AllSets_await, quiet_handleMapClick.
  - apply AllSets_bind; [quiet_set | intros _]. quiet_set.
Qed.

Lemma quiet_handleUseCurrentLocation g : quiet (handleUseCurrentLocation g).
Proof.
  unfold quiet, handleUseCurrentLocation. destruct g; simpl negb; cbv iota.
  - repeat (apply AllSets_bind; [quiet_set | intros _]).
    simpl. intros r. apply quiet_onPosition.
  - quiet_set.
Qed.

(** After its first setter call, [handleConfirm] is quiet too. *)
Lemma handleConfirm_rest (a : string) :
  exists k, handleConfirm a = SetState (setConfirmedAddress a) k /\ quiet k.
Proof.
  eexists. split; [reflexivity |].
  unfold quiet. apply AllSets_try_catch; [| exact I].
  apply AllSets_bind; [apply AllSets_await, AllSets_fetchLatLngFromAddress |].
  intros [c|]; [quiet_set | exact I].
Qed.

Lemma advance_unconfirmed (p : Proc unit) (s : State) :
  quiet p -> confirmedAddress s = "" -> confirmedAddress (fst (advance p s)) = "".
Proof.
  unfold quiet. revert s.
  induction p as [a| |u k IH|k IH|n k IH|q k IH|o k IH]; intros s Hp Hs; simpl; auto.
  destruct Hp as [Hu Hk]. apply IH; auto.
Qed.

(** *** Invariants of the event loop *)

Lemma state_spawn (p : Proc unit) (c : Config) :
  state (spawn p c) = fst (advance p (state c)).
Proof. reflexivity. Qed.

Lemma pending_spawn (p : Proc unit) (c : Config) :
  pending (spawn p c) = pending c ++ suspended (snd (advance p (state c))).
Proof. reflexivity. Qed.

Lemma spawn_quiet (p : Proc unit) (c : Config) :
  quiet p -> Forall quiet (pending c) -> Forall quiet (pending (spawn p c)).
Proof.
  intros Hp Hc. rewrite pending_spawn. apply Forall_app. split; [assumption |].
  apply AllSets_advance, Hp.
Qed.

Lemma step_quiet (g : bool) (c : Config) (e : Event) :
  Forall quiet (pending c) -> Forall quiet (pending (step g c e)).
Proof.
  intros Hc. destruct e as [lat lng|i| |a| |i a]; unfold step.
  - apply spawn_quiet; [apply quiet_handleMapClick | assumption].
  - destruct (nth_error nmiMarkers i); [| assumption].
    apply spawn_quiet; [apply quiet_handleMapClick | assumption].
  - destruct (render (state c)) as [| | ? ? ? [] ?|]; try assumption.
    apply spawn_quiet; [apply quiet_handleUseCurrentLocation | assumption].
  - destruct (render (state c)); assumption.
  - destruct (render (state c)) as [| | ? ? [] ? ?|]; try assumption.
    destruct (handleConfirm_rest (address (state c))) as (k & E & Hk).
    rewrite pending_spawn, E. apply Forall_app. split; [assumption |].
    apply (AllSets_advance keeps_unconfirmed k), Hk.
  - destruct (nth_error (pending c) i) as [t|] eqn:Et; [| assumption].
    destruct (resume t a) as [k|] eqn:Ek; [| assumption].
    apply spawn_quiet.
    + eapply AllSets_resume; [| exact Ek].
      eapply Forall_forall; [exact Hc |]. eapply nth_error_In, Et.
    + simpl. apply Forall_remove_nth, Hc.
Qed.

Lemma exec_quiet (g : bool) (events : list Event) (c : Config) :
  Forall quiet (pending c) -> Forall quiet (pending (exec g c events)).
Proof.
  unfold exec. revert c. induction events as [|e es IH]; intros c Hc; simpl; auto.
  apply IH, step_quiet, Hc.
Qed.

Lemma step_unconfirmed (g : bool) (c : Config) (e : Event) :
  is_confirm e = false ->
  Forall quiet (pending c) ->
  confirmedAddress (state c) = "" ->
  confirmedAddress (state (step g c e)) = "".
Proof.
  intros He Hc Hs. destruct e as [lat lng|i| |a| |i a]; try discriminate;
    unfold step; rewrite ?state_spawn.
  - apply advance_unconfirmed; [apply quiet_handleMapClick | assumption].
  - destruct (nth_error nmiMarkers i); [| assumption].
    rewrite state_spawn.
    apply advance_unconfirmed; [apply quiet_handleMapClick | assumption].
  - destruct (render (state c)) as [| | ? ? ? [] ?|]; try assumption.
    rewrite state_spawn.
    apply advance_unconfirmed; [apply quiet_handleUseCurrentLocation | assumption].
  - destruct (render (state c)); assumption.
  - destruct (nth_error (pending c) i) as [t|] eqn:Et; [| assumption].
    destruct (resume t a) as [k|] eqn:Ek; [| assumption].
    rewrite state_spawn.
    apply advance_unconfirmed; [| assumption].
    eapply AllSets_resume; [| exact Ek].
    eapply Forall_forall; [exact Hc |]. eapply nth_error_In, Et.
Qed.

Lemma exec_unconfirmed (g : bool) (events : list Event) (c : Config) :
  forallb (fun e => negb (is_confirm e)) events = true ->
  Forall quiet (pending c) ->
  confirmedAddress (state c) = "" ->
  confirmedAddress (state (exec g c events)) = "".
Proof.
  unfold exec. revert c. induction events as [|e es IH]; intros c He Hc Hs; simpl; auto.
  simpl in He. apply andb_prop in He. destruct He as [He Hes].
  apply IH; [assumption | apply step_quiet, Hc |].
  apply step_unconfirmed; auto. now destruct (is_confirm e).
Qed.

End LoopFacts.

Module Controller.
Import Js MapWithNmi ProcFacts LoopFacts.
Local Open Scope proc_scope.

(** *** One handler against a world *)


(** Served by the application's own handler, [fetchNearestNmi] returns a
    body that carries the identifier of the record its scan selected. *)
Lemma fetchNearestNmi_local (w : World) (lat lng : number) (s : State) (r : NmiGeocode.t) :
  geocode_api w = local_geocode_api true ->
  nearestIn nmiMarkers lat lng = Some r ->
  exists json,
    snd (run w (fetchNearestNmi lat lng) s) = Some (Some json) /\
    nmi_of (Some json) = Some (NmiGeocode.nmi r).
Proof.
  intros Hw Hr.
  destruct (ResolverFacts.nearestIn_some _ _ _ _ Hr) as (before & after & E & _).
  assert (Hin : In r nmiMarkers) by (rewrite E; apply in_or_app; right; left; reflexivity).
  unfold fetchNearestNmi. rewrite Hr. simpl. rewrite Hw.
  destruct Hin as [<- | [<- | [<- | []]]]; eexists; split; reflexivity.
Qed.

Lemma advance_handleMapClick (lat lng : number) (s : State) :
  exists t, advance (handleMapClick lat lng) s = (selecting lat lng s, Some t).
Proof.
  unfold handleMapClick, fetchNearestNmi. cbn [bind set advance].
  fold (selecting lat lng s).
  destruct (nearestIn nmiMarkers lat lng); eexists; reflexivity.
Qed.

Lemma advance_await_handleMapClick (lat lng : number) (s : State) :
  exists t, advance (await (handleMapClick lat lng)) s = (selecting lat lng s, Some t).
Proof.
  unfold await, handleMapClick, fetchNearestNmi. cbn [bind set try_catch advance].
  fold (selecting lat lng s).
  destruct (nearestIn nmiMarkers lat lng); eexists; reflexivity.
Qed.

(** *** [App.tsx]: the synchronous controller *)

Lemma App_handleMapClick_fields (lat lng : number) (s : App.State) :
  App.selectedPosition (App.handleMapClick lat lng s) = Some (LatLng.make lat lng) /\
  App.selectedNmi (App.handleMapClick lat lng s) = App.findNearestNmi lat lng /\
  App.confirmedAddress (App.handleMapClick lat lng s) = "".
Proof.
  unfold App.handleMapClick.
  destruct (App.addressOf (App.findNearestNmi lat lng)); repeat split.
Qed.

Lemma App_step_unconfirmed (s : App.State) (e : App.Event) :
  e <> App.Confirm ->
  App.confirmedAddress s = "" -> App.confirmedAddress (App.step s e) = "".
Proof.
  intros He Hs. destruct e as [lat lng|a|]; simpl.
  - apply App_handleMapClick_fields.
  - destruct (App.render s); assumption.
  - congruence.
Qed.

Lemma App_exec_unconfirmed (events : list App.Event) (s : App.State) :
  Forall (fun e => e <> App.Confirm) events ->
  App.confirmedAddress s = "" ->
  App.confirmedAddress (fold_left App.step events s) = "".
Proof.
  revert s. induction events as [|e es IH]; intros s He Hs; simpl; auto.
  inversion He; subst. apply IH; auto. now apply App_step_unconfirmed.
Qed.

(** *** The claims about the controller *)

(** C2: after any history of events, an event that selects the coordinate
    [(lat, lng)] (a map click, a marker click, or a position fix answering a
    pending request of [handleUseCurrentLocation]) leaves [selectedNmi],
    [address], [confirmedAddress] and [error] cleared, [selectedPosition] at
    the new coordinate and [loading] set, with the handler still suspended on
    its resolution; and whatever happens later, short of a new confirm,
    [confirmedAddress] stays empty.  In [App.tsx] the click sets the position
    and clears [confirmedAddress] in the same way. *)
Theorem selection_clears_confirmation
        (g : bool) (history later : list Event) (e : Event) (lat lng : number) :
  selection (exec g start history) e lat lng ->
  forallb (fun e' => negb (is_confirm e')) later = true ->
  let c' := step g (exec g start history) e in
  selectedNmi (state c') = None /\
  address (state c') = "" /\
  confirmedAddress (state c') = "" /\
  error (state c') = "" /\
  selectedPosition (state c') = Some (LatLng.make lat lng) /\
  loading (state c') = true /\
  (exists others t, pending c' = others ++ [t]) /\
  confirmedAddress (state (exec g c' later)) = "" /\
  (forall (s : App.State) (later' : list App.Event),
      App.selectedPosition (App.handleMapClick lat lng s) = Some (LatLng.make lat lng) /\
      App.confirmedAddress (App.handleMapClick lat lng s) = "" /\
      (Forall (fun e' => e' <> App.Confirm) later' ->
       App.confirmedAddress (fold_left App.step later' (App.handleMapClick lat lng s)) = "")).
Proof.
  intros Hsel Hlater c'.
  set (c := exec g start history) in *.
  assert (Hq : Forall quiet (pending c)) by (apply exec_quiet; constructor).
  assert (Hc' : state c' = selecting lat lng (state c) /\
                exists others t, pending c' = others ++ [t]).
  { subst c'. destruct Hsel as [lat lng | i marker Hm | i latitude longitude Hp]; unfold step.
    - destruct (advance_handleMapClick lat lng (state c)) as [t Ht].
      rewrite state_spawn, pending_spawn, Ht. cbn [fst snd suspended]. split; [reflexivity | eexists _, _; reflexivity].
    - rewrite Hm.
      destruct (advance_handleMapClick (NmiGeocode.lat marker) (NmiGeocode.lng marker)
                                       (state c)) as [t Ht].
      rewrite state_spawn, pending_spawn, Ht. cbn [fst snd suspended]. split; [reflexivity | eexists _, _; reflexivity].
    - rewrite Hp. cbn [resume onPosition].
      destruct (advance_await_handleMapClick latitude longitude (state c)) as [t Ht].
      rewrite state_spawn, pending_spawn. cbn [state pending]. rewrite Ht.
      cbn [fst snd suspended]. split; [reflexivity | eexists _, _; reflexivity]. }
  destruct Hc' as [Hs Hp]. rewrite Hs.
  repeat (split; [reflexivity |]).
  split; [exact Hp |]. split.
  - apply exec_unconfirmed; [exact Hlater | apply step_quiet, Hq |].
    fold c'. now rewrite Hs.
  - intros s later'.
    destruct (App_handleMapClick_fields lat lng s) as (H1 & _ & H3).
    repeat split; auto. intros H. now apply App_exec_unconfirmed.
Qed.

Lemma selection_clears_confirmation_after_confirm :
  let history := [MapClick (-33.87)%float 151.21%float;
                  Resume 0 (GeocodeAnswer (local_geocode_api true "NMI001"));
                  Resume 0 Turn;
                  Resume 0 (GoogleAnswer
                              (Responded true
                                 {| results := Some [{| formatted_address := "1 Market St";
                                                        location := None |}] |}));
                  Resume 0 Turn;
                  Confirm] in
  let later := [Resume 0 (GoogleAnswer Rejected); Resume 1 Turn; Resume 0 Turn] in
  confirmedAddress (state (exec true start history)) = "1 Market St" /\
  confirmedAddress
    (state (exec true (step true (exec true start history) (MarkerClick 1)) later)) = "".
Proof.
  intros history later. split; [vm_compute; reflexivity |].
  assert (Hsel : selection (exec true start history) (MarkerClick 1)
                           (-37.8136)%float 144.9631%float)
    by exact (@select_marker (exec true start history) 1
                (NmiGeocode.make "NMI002" (-37.8136)%float 144.9631%float) eq_refl).
  assert (Hlater : forallb (fun e' => negb (is_confirm e')) later = true)
    by reflexivity.
  pose proof (selection_clears_confirmation true history later (MarkerClick 1)
                (-37.8136)%float 144.9631%float Hsel Hlater) as H.
  cbv zeta in H. apply H.
Defined.



(** C5: [handleConfirm] copies the draft address into [confirmedAddress];
    the forward geocoding that follows moves [selectedPosition] only when the
    response is ok and its first result carries a location, and in every
    other case (rejected request, response not ok, no result, result without
    geometry) the position is kept; [error] and the other variables are never
    touched and the handler never throws.  In [App.tsx] the confirm only
    copies the draft. *)
Theorem confirm_copies_draft (w : World) (s : State) (s0 : App.State) :
  let s' := fst (run w (handleConfirm (address s)) s) in
  confirmedAddress s' = address s /\
  selectedPosition s' =
    match google w (ByAddress (address s)) with
    | Responded true {| results := Some (first :: _) |} =>
        match location first with
        | Some l => Some (LatLng.make (LatLng.lat l) (LatLng.lng l))
        | None => selectedPosition s
        end
    | _ => selectedPosition s
    end /\
  error s' = error s /\
  address s' = address s /\
  selectedNmi s' = selectedNmi s /\
  loading s' = loading s /\
  snd (run w (handleConfirm (address s)) s) = Some tt /\
  App.confirmedAddress (App.handleConfirm s0) = App.address s0 /\
  App.selectedPosition (App.handleConfirm s0) = App.selectedPosition s0.
Proof.
  unfold handleConfirm, fetchLatLngFromAddress. cbn.
  destruct (google w (ByAddress (address s))) as [|[] [[[|[f [l|]] r]|]]];
    cbn; repeat split.
Qed.

(** C6: without [navigator.geolocation] the handler only sets the error
    message and [loading] is left as it was; with it, the handler sets
    [loading], clears the error and issues one request for a high-accuracy
    fix with a timeout of 10000 ms; a fix runs [handleMapClick] at its
    coordinate, an error sets the error message and clears [loading] while
    [selectedNmi] and the other variables are kept and no request is issued. *)
Theorem use_current_location
        (w : World) (s : State) (latitude longitude : number) :
  advance (handleUseCurrentLocation false) s
  = (setError "Geolocation is not supported by your browser." s, None) /\
  loading (fst (advance (handleUseCurrentLocation false) s)) = loading s /\
  advance (handleUseCurrentLocation true) s
  = (setError "" (setLoading true s),
     Some (GetCurrentPosition {| enableHighAccuracy := true; timeout := 10000 |}
                              onPosition)) /\
  onPosition (Fix latitude longitude) = await (handleMapClick latitude longitude) /\
  run w (onPosition (Fix latitude longitude)) s
  = run w (handleMapClick latitude longitude) s /\
  fst (advance (onPosition (Fix latitude longitude)) s)
  = fst (advance (handleMapClick latitude longitude) s) /\
  advance (onPosition PositionError) s
  = (setError "Unable to retrieve your location. Please allow location access and try again."
              (setLoading false s), None) /\
  selectedNmi (fst (advance (onPosition PositionError) s)) = selectedNmi s.
Proof.
  repeat split.
  - apply run_await.
  - cbn [onPosition].
    destruct (advance_handleMapClick latitude longitude s) as [t Ht].
    destruct (advance_await_handleMapClick latitude longitude s) as [t' Ht'].
    now rewrite Ht, Ht'.
Qed.

(** C7: the "Confirm Address" button is disabled exactly when the draft
    address is empty or equals the confirmed address, in both components; a
    click on it then changes nothing; and whenever the details panel is shown
    (not loading, no error, an NMI selected) the button carries exactly that
    flag, so that in every other such state a click runs [handleConfirm]. *)
Theorem confirm_disabled_iff (g : bool) (c : Config) (s0 : App.State) :
  (confirmDisabled (state c) = true <->
   address (state c) = "" \/ address (state c) = confirmedAddress (state c)) /\
  (App.confirmDisabled s0 = true <->
   App.address s0 = "" \/ App.address s0 = App.confirmedAddress s0) /\
  (confirmDisabled (state c) = true -> step g c Confirm = c) /\
  (App.confirmDisabled s0 = true -> App.step s0 App.Confirm = s0) /\
  (forall n, loading (state c) = false -> error (state c) = "" ->
             selectedNmi (state c) = Some n -> n <> "" ->
     exists banner,
       render (state c) = Details n (address (state c)) (confirmDisabled (state c))
                                  false banner /\
       (confirmDisabled (state c) = false ->
        step g c Confirm = spawn (handleConfirm (address (state c))) c)) /\
  (forall n, App.selectedNmi s0 = Some n -> n <> "" ->
     exists banner,
       App.render s0 = App.Details n (App.address s0) (App.confirmDisabled s0) banner /\
       (App.confirmDisabled s0 = false -> App.step s0 App.Confirm = App.handleConfirm s0)).
Proof.
  assert (Hd : forall a b : string,
             negb (truthy_string a) || String.eqb a b = true <-> a = "" \/ a = b).
  { intros a b. rewrite orb_true_iff, String.eqb_eq.
    destruct a; simpl; intuition (congruence || discriminate). }
  repeat split.
  - apply Hd.
  - apply Hd.
  - apply Hd.
  - apply Hd.
  - intros H. unfold step, render. rewrite H.
    destruct (loading (state c)); [reflexivity |].
    destruct (truthy_string (error (state c))); [reflexivity |].
    destruct (selectedNmi (state c)) as [n|]; [| reflexivity].
    destruct (truthy_string n); reflexivity.
  - intros H. unfold App.step, App.render. rewrite H.
    destruct (App.selectedNmi s0) as [n|]; [| reflexivity].
    destruct (truthy_string n); reflexivity.
  - intros n Hl He Hn Hne. eexists. unfold step, render.
    rewrite Hl, He, Hn. simpl.
    destruct n; [congruence |]. simpl. split; [reflexivity |].
    intros H. now rewrite H.
  - intros n Hn Hne. eexists. unfold App.step, App.render. rewrite Hn.
    destruct n; [congruence |]. simpl. split; [reflexivity |].
    intros H. now rewrite H.
Qed.

End Controller.

(** ** Further properties of the asynchronous controller *)

Module Outcomes.
Import Js MapWithNmi LoopSpec ProcFacts LoopFacts Controller.
Local Open Scope proc_scope.

Lemma result_fetchNearestNmi (w : World) (lat lng : number) :
  snd (run w (fetchNearestNmi lat lng) initial) =
  match nearestIn nmiMarkers lat lng with
  | None => Some None
  | Some r =>
      match geocode_api w (NmiGeocode.nmi r) with
      | Rejected => None
      | Responded ok json => Some (if ok then Some json else None)
      end
  end.
Proof.
  unfold fetchNearestNmi. destruct (nearestIn nmiMarkers lat lng) as [r|]; [| reflexivity].
  simpl. destruct (geocode_api w (NmiGeocode.nmi r)) as [|[] j]; reflexivity.
Qed.





(** X3: served by the application's own [/api/geocode], [fetchNearestNmi]
    returns, for every input the scan resolves, a body that holds exactly the
    identifier and the coordinates of the record the scan selected: the
    client's markers and the server's directory agree. *)
Theorem fetchNearestNmi_round_trip
        (w : World) (lat lng : number) (s : State) (r : NmiGeocode.t) :
  geocode_api w = local_geocode_api true ->
  nearestIn nmiMarkers lat lng = Some r ->
  run w (fetchNearestNmi lat lng) s
  = (s, Some (Some (JObject [("nmi", JString (NmiGeocode.nmi r));
                             ("lat", JNumber (NmiGeocode.lat r));
                             ("lng", JNumber (NmiGeocode.lng r))]))) /\
  nmi_of (Some (JObject [("nmi", JString (NmiGeocode.nmi r));
                         ("lat", JNumber (NmiGeocode.lat r));
                         ("lng", JNumber (NmiGeocode.lng r))]))
  = Some (NmiGeocode.nmi r).
Proof.
  intros Hw Hr.
  destruct (ResolverFacts.nearestIn_some _ _ _ _ Hr) as (before & after & E & _).
  assert (Hin : In r nmiMarkers) by (rewrite E; apply in_or_app; right; left; reflexivity).
  rewrite run_fetchNearestNmi, result_fetchNearestNmi, Hr, Hw.
  destruct Hin as [<- | [<- | [<- | []]]]; split; reflexivity.
Qed.

Lemma fetchNearestNmi_round_trip_melbourne :
  run sample_world (fetchNearestNmi (-37.8)%float 145%float) initial
  = (initial, Some (Some (JObject [("nmi", JString "NMI002");
                                   ("lat", JNumber (-37.8136)%float);
                                   ("lng", JNumber 144.9631%float)]))).
Proof.
  exact (proj1 (fetchNearestNmi_round_trip
                  sample_world (-37.8)%float 145%float initial
                  (NmiGeocode.make "NMI002" (-37.8136)%float 144.9631%float)
                  eq_refl eq_refl)).
Defined.

End Outcomes.

(** ** Further properties of the lookup service *)

Module LookupMore.
Import Js Api MapWithNmi AddressLookup.

(** X4: the two handlers answer nothing but 200, 400 and 404; 400 exactly
    when the parameter is not a single string; every body of another status
    than 200 holds an error message alone, and every body of a 200 starts
    with the identifier that was asked for. *)
Theorem handler_statuses (q : QueryValue) :
  let answers (r : Response) :=
    (status r = 200 \/ status r = 400 \/ status r = 404) /\
    (status r = 400 <-> forall nmi, q <> QString nmi) /\
    (status r <> 200 -> exists message, body r = JObject [("error", JString message)]) /\
    (status r = 200 ->
     exists nmi rest, q = QString nmi /\ body r = JObject (("nmi", JString nmi) :: rest)) in
  answers (Addressfinder.handler q) /\ answers (Geocode.handler q).
Proof.
  cbv zeta. destruct q as [| nmi | l].
  - split; (split; [right; left; reflexivity |]); (split; [split; [discriminate | reflexivity] |]);
      (split; [intros _; eexists; reflexivity | discriminate]).
  - assert (Hq : ~ (forall nmi0, QString nmi <> QString nmi0))
      by (intros H; apply (H nmi); reflexivity).
    unfold Addressfinder.handler, Geocode.handler, get.
    split.
    + destruct (own Addressfinder.mockAddressData nmi) as [a|].
      * destruct (truthy_string a); cbn.
        -- repeat split; try (left; reflexivity); try discriminate; try tauto; try congruence.
           intros _. eexists _, _. split; reflexivity.
        -- repeat split; try (right; right; reflexivity); try discriminate; try tauto.
           intros _. eexists. reflexivity.
      * destruct (inherited nmi); cbn.
        -- repeat split; try (left; reflexivity); try discriminate; try tauto; try congruence.
           intros _. eexists _, _. split; reflexivity.
        -- repeat split; try (right; right; reflexivity); try discriminate; try tauto.
           intros _. eexists. reflexivity.
    + destruct (own Geocode.nmiGeocodeData nmi) as [g|]; [| destruct (inherited nmi)]; cbn.
      * repeat split; try (left; reflexivity); try discriminate; try tauto; try congruence.
        intros _. eexists _, _. split; reflexivity.
      * repeat split; try (left; reflexivity); try discriminate; try tauto; try congruence.
        intros _. eexists _, _. split; reflexivity.
      * repeat split; try (right; right; reflexivity); try discriminate; try tauto.
        intros _. eexists. reflexivity.
  - split; (split; [right; left; reflexivity |]); (split; [split; [discriminate | reflexivity] |]);
      (split; [intros _; eexists; reflexivity | discriminate]).
Qed.

(** X5: for every identifier the resolvers can return, [fetchAddressForNmi]
    served by the application's own [/api/addressfinder] returns a body with
    that identifier and the very address [App.tsx] shows for it; when the
    request does not get through it throws; for an identifier of letters and
    digits that is in no directory and names no inherited member it returns
    null. *)
Theorem fetchAddressForNmi_serves_directory
        (online offline : string -> Fetched Json) (lat lng : number) (n : string) :
  serves true online ->
  serves false offline ->
  App.findNearestNmi lat lng = Some n ->
  exists a,
    App.addressOf (Some n) = Some a /\
    fetchAddressForNmi online n
    = Some (Some (JObject [("nmi", JString n); ("address", JString a)])) /\
    fetchAddressForNmi offline n = None /\
    (forall unknown,
        plain unknown = true ->
        own Addressfinder.mockAddressData unknown = None -> inherited unknown = false ->
        fetchAddressForNmi online unknown = Some None).
Proof.
  intros Hon Hoff Hn.
  unfold App.findNearestNmi in Hn. rewrite ResolverFacts.findNearestNmiIn_nearestIn in Hn.
  destruct (nearestIn App.mockNmiData lat lng) as [r|] eqn:Hr; [| discriminate].
  destruct (ResolverFacts.nearestIn_some _ _ _ _ Hr) as (before & after & E & _).
  assert (Hin : In r App.mockNmiData) by (rewrite E; apply in_or_app; right; left; reflexivity).
  injection Hn as <-.
  assert (Hu : forall unknown,
             plain unknown = true ->
             own Addressfinder.mockAddressData unknown = None -> inherited unknown = false ->
             fetchAddressForNmi online unknown = Some None).
  { intros u Hp Ho Hi. unfold fetchAddressForNmi.
    rewrite (Hon u (Responded (status_ok (Api.status (Addressfinder.handler (QString u))))
                              (Api.body (Addressfinder.handler (QString u))))).
    - unfold Addressfinder.handler, get. now rewrite Ho, Hi.
    - unfold local_addressfinder_api. now rewrite Hp. }
  destruct Hin as [<- | [<- | [<- | []]]]; eexists;
    (split; [reflexivity |]);
    (split; [unfold fetchAddressForNmi; erewrite Hon by reflexivity; reflexivity |]);
    (split; [unfold fetchAddressForNmi; erewrite Hoff by reflexivity; reflexivity |]);
    exact Hu.
Qed.

Lemma fetchAddressForNmi_serves_directory_brisbane :
  exists a,
    App.addressOf (Some "NMI003") = Some a /\
    fetchAddressForNmi
      (fun nmi => match local_addressfinder_api true nmi with
                  | Some r => r
                  | None => Rejected
                  end) "NMI003"
    = Some (Some (JObject [("nmi", JString "NMI003"); ("address", JString a)])).
Proof.
  assert (Hon : serves true (fun nmi => match local_addressfinder_api true nmi with
                                        | Some r => r
                                        | None => Rejected
                                        end))
    by (intros nmi r H; rewrite H; reflexivity).
  assert (Hoff : serves false (fun nmi => match local_addressfinder_api false nmi with
                                          | Some r => r
                                          | None => Rejected
                                          end))
    by (intros nmi r H; rewrite H; reflexivity).
  destruct (fetchAddressForNmi_serves_directory _ _ (-27.5)%float 153%float "NMI003"
              Hon Hoff eq_refl) as (a & H1 & H2 & _).
  exists a. split; assumption.
Defined.

End LookupMore.

(** ** Further properties of [App.tsx] *)

Module AppMore.
Import Js.

Lemma addressOf_some (n a : string) :
  App.addressOf (Some n) = Some a -> truthy_string n = true /\ truthy_string a = true.
Proof.
  unfold App.addressOf. destruct (truthy_string n); [| discriminate].
  destruct (get App.mockAddressData n) as [v| |]; try discriminate.
  destruct (truthy_string v) eqn:Hv; [| discriminate].
  intros H. injection H as <-. split; [reflexivity | exact Hv].
Qed.

Lemma truthy_not_empty (a : string) : truthy_string a = true -> String.eqb a "" = false.
Proof. destruct a; [discriminate | reflexivity]. Qed.

(** What a click on the map of [App.tsx] leaves. *)
Lemma App_handleMapClick_cases (lat lng : number) (s : App.State) :
  let s' := App.handleMapClick lat lng s in
  (exists n a,
      App.selectedNmi s' = Some n /\
      In n (map NmiGeocode.nmi App.mockNmiData) /\
      own App.mockAddressData n = Some a /\
      App.address s' = a /\
      App.render s' = App.Details n a false None)
  \/
  (App.selectedNmi s' = None /\ App.address s' = "" /\ App.render s' = App.Prompt).
Proof.
  cbv zeta. unfold App.handleMapClick.
  destruct (App.findNearestNmi lat lng) as [n|] eqn:Hn.
  - left. destruct (Resolver.findNearestNmi_own_key lat lng n Hn) as (a & Hg & Ha).
    rewrite Ha. destruct (addressOf_some n a Ha) as [Tn Ta].
    exists n, a. split; [reflexivity |]. split.
    + pose proof Hn as Hn'. unfold App.findNearestNmi in Hn'.
      rewrite ResolverFacts.findNearestNmiIn_nearestIn in Hn'.
      destruct (MapWithNmi.nearestIn App.mockNmiData lat lng) as [r|] eqn:Hr; [| discriminate].
      destruct (ResolverFacts.nearestIn_some _ _ _ _ Hr) as (before & after & E & _).
      injection Hn' as <-. rewrite E, map_app. apply in_or_app. right. left. reflexivity.
    + split.
      * unfold get in Hg. destruct (own App.mockAddressData n) as [v|].
        -- congruence.
        -- destruct (inherited n); discriminate.
      * split; [reflexivity |].
        unfold App.render, App.confirmDisabled. cbn.
        now rewrite Tn, Ta, (truthy_not_empty a Ta).
  - right. repeat split.
Qed.

(** X6: a click on the map of [App.tsx] either selects an identifier of the
    directory, makes that identifier's canned, non-empty address the draft
    and enables "Confirm Address" with no confirmation kept, the address
    field showing that address when the click mounts it and the text it held
    before otherwise; or (when the scan finds nothing) selects nothing, with
    an empty draft, the prompt and no address field. *)
Theorem App_click_drafts_directory_address (lat lng : number) (u : AppField.Ui) :
  let u' := AppField.step u (App.MapClick lat lng) in
  let s' := AppField.app u' in
  (exists n a,
      App.selectedNmi s' = Some n /\
      In n (map NmiGeocode.nmi App.mockNmiData) /\
      own App.mockAddressData n = Some a /\
      a <> "" /\
      App.address s' = a /\
      App.confirmDisabled s' = false /\
      App.confirmedAddress s' = "" /\
      AppField.input u' = Some (match AppField.input u with
                                | Some text => text
                                | None => a
                                end))
  \/
  (App.selectedNmi s' = None /\ App.address s' = "" /\
   App.render s' = App.Prompt /\ AppField.input u' = None).
Proof.
  cbv zeta. unfold AppField.step. cbn [AppField.app AppField.input App.step].
  set (s' := App.handleMapClick lat lng (AppField.app u)).
  destruct (App_handleMapClick_cases lat lng (AppField.app u))
    as [(n & a & Hs & Hin & Ho & Ha & Hr) | (Hs & Ha & Hr)]; fold s' in Hs, Ha, Hr.
  - left. exists n, a.
    assert (Hd : App.confirmDisabled s' = false).
    { unfold App.render in Hr. rewrite Hs in Hr.
      destruct (truthy_string n); [| discriminate]. now injection Hr. }
    assert (Hne : a <> "").
    { intros ->. unfold App.confirmDisabled in Hd. rewrite Ha in Hd. discriminate. }
    repeat (split; [assumption |]). split.
    + apply Controller.App_handleMapClick_fields.
    + unfold AppField.rerender, AppField.shown. rewrite Hr, Ha.
      now destruct (AppField.input u).
  - right. repeat (split; [assumption |]).
    unfold AppField.rerender, AppField.shown. now rewrite Hr.
Qed.

(** The states [App.tsx] can reach. *)
Lemma App_step_invariant (s : App.State) (e : App.Event) :
  (App.selectedNmi s = None -> App.address s = "" /\ App.confirmedAddress s = "") ->
  (forall n, App.selectedNmi s = Some n ->
             truthy_string n = true /\ In n (map NmiGeocode.nmi App.mockNmiData)) ->
  (App.selectedNmi (App.step s e) = None ->
   App.address (App.step s e) = "" /\ App.confirmedAddress (App.step s e) = "") /\
  (forall n, App.selectedNmi (App.step s e) = Some n ->
             truthy_string n = true /\ In n (map NmiGeocode.nmi App.mockNmiData)).
Proof.
  intros H1 H2. destruct e as [lat lng|a|]; unfold App.step.
  - destruct (App_handleMapClick_cases lat lng s)
      as [(n & a & Hs & Hin & Ho & Ha & Hr) | (Hs & Ha & Hr)].
    + split; [congruence |]. intros n' Hn'. assert (n' = n) by congruence. subst n'.
      split; [| exact Hin].
      unfold App.render in Hr. rewrite Hs in Hr.
      destruct (truthy_string n); [reflexivity | discriminate].
    + split; [| congruence]. intros _. split; [exact Ha |].
      apply Controller.App_handleMapClick_fields.
  - unfold App.render. destruct (App.selectedNmi s) as [n|] eqn:Hn.
    + destruct (truthy_string n) eqn:Tn.
      * cbn. rewrite Hn. split; [discriminate | exact H2].
      * rewrite Hn. split; [discriminate | exact H2].
    + rewrite Hn. split; [exact H1 | exact H2].
  - unfold App.render. destruct (App.selectedNmi s) as [n|] eqn:Hn.
    + destruct (truthy_string n) eqn:Tn.
      * destruct (App.confirmDisabled s); cbn; rewrite ?Hn; (split; [discriminate | exact H2]).
      * rewrite Hn. split; [discriminate | exact H2].
    + rewrite Hn. split; [exact H1 | exact H2].
Qed.

(** X7: in every state [App.tsx] reaches from its initial state, a selected
    NMI is a non-empty identifier of the directory, and while no NMI is
    selected the draft and the confirmed address are empty, so a confirmation
    is only ever shown together with an NMI. *)
Theorem App_reachable_states (events : list App.Event) :
  let s := fold_left App.step events App.initial in
  (App.selectedNmi s = None -> App.address s = "" /\ App.confirmedAddress s = "") /\
  (forall n, App.selectedNmi s = Some n ->
             n <> "" /\ In n (map NmiGeocode.nmi App.mockNmiData)) /\
  (App.confirmedAddress s <> "" -> exists n, App.render s = App.Details n (App.address s)
       (App.confirmDisabled s) (Some (App.confirmedAddress s))).
Proof.
  cbv zeta.
  assert (H : forall s,
             (App.selectedNmi s = None -> App.address s = "" /\ App.confirmedAddress s = "") ->
             (forall n, App.selectedNmi s = Some n ->
                        truthy_string n = true /\ In n (map NmiGeocode.nmi App.mockNmiData)) ->
             let s' := fold_left App.step events s in
             (App.selectedNmi s' = None -> App.address s' = "" /\ App.confirmedAddress s' = "") /\
             (forall n, App.selectedNmi s' = Some n ->
                        truthy_string n = true /\ In n (map NmiGeocode.nmi App.mockNmiData))).
  { induction events as [|e es IH]; intros s H1 H2; simpl; [split; assumption |].
    destruct (App_step_invariant s e H1 H2) as [H1' H2']. apply IH; assumption. }
  destruct (H App.initial) as [H1 H2].
  - intros _. split; reflexivity.
  - discriminate.
  - split; [exact H1 |]. split.
    + intros n Hn. destruct (H2 n Hn) as [Tn Hin]. split; [| exact Hin].
      intros ->. discriminate.
    + intros Hc. destruct (App.selectedNmi (fold_left App.step events App.initial))
        as [n|] eqn:Hn.
      * exists n. unfold App.render. rewrite Hn. destruct (H2 n eq_refl) as [Tn _].
        rewrite Tn.
        destruct (App.confirmedAddress (fold_left App.step events App.initial));
          [congruence | reflexivity].
      * destruct (H1 eq_refl) as [_ Hc']. congruence.
Qed.

Lemma step_Confirm_disabled (g : bool) (c : MapWithNmi.Config) :
  MapWithNmi.confirmDisabled (MapWithNmi.state c) = true ->
  MapWithNmi.step g c MapWithNmi.Confirm = c.
Proof.
  intros H. unfold MapWithNmi.step, MapWithNmi.render. rewrite H.
  destruct (MapWithNmi.loading (MapWithNmi.state c)); [reflexivity |].
  destruct (truthy_string (MapWithNmi.error (MapWithNmi.state c))); [reflexivity |].
  destruct (MapWithNmi.selectedNmi (MapWithNmi.state c)) as [n|]; [| reflexivity].
  destruct (truthy_string n); reflexivity.
Qed.

Lemma step_Confirm_cases (g : bool) (c : MapWithNmi.Config) :
  MapWithNmi.step g c MapWithNmi.Confirm = c \/
  MapWithNmi.state (MapWithNmi.step g c MapWithNmi.Confirm)
  = MapWithNmi.setConfirmedAddress (MapWithNmi.address (MapWithNmi.state c))
                                   (MapWithNmi.state c).
Proof.
  unfold MapWithNmi.step.
  destruct (MapWithNmi.render (MapWithNmi.state c)) as [| | ? ? [] ? ?|]; auto.
Qed.

(** X8: a second click on "Confirm Address" changes nothing, in both
    components: after a confirm the draft equals the confirmed address, so
    the button is disabled until the draft is edited. *)
Theorem confirm_is_idempotent (g : bool) (c : MapWithNmi.Config) (s : App.State) :
  MapWithNmi.step g (MapWithNmi.step g c MapWithNmi.Confirm) MapWithNmi.Confirm
  = MapWithNmi.step g c MapWithNmi.Confirm /\
  App.step (App.step s App.Confirm) App.Confirm = App.step s App.Confirm.
Proof.
  split.
  - destruct (step_Confirm_cases g c) as [H | H].
    + now rewrite !H.
    + apply step_Confirm_disabled. rewrite H.
      unfold MapWithNmi.confirmDisabled. cbn.
      now rewrite String.eqb_refl, orb_true_r.
  - assert (Hd : forall s', App.confirmDisabled s' = true -> App.step s' App.Confirm = s').
    { intros s' H. unfold App.step, App.render. rewrite H.
      destruct (App.selectedNmi s') as [n|]; [| reflexivity].
      destruct (truthy_string n); reflexivity. }
    assert (Hc : App.step s App.Confirm = s \/ App.step s App.Confirm = App.handleConfirm s).
    { unfold App.step. destruct (App.render s) as [? ? [] ?|]; auto. }
    destruct Hc as [H | H].
    + now rewrite !H.
    + apply Hd. rewrite H. unfold App.confirmDisabled. cbn.
      now rewrite String.eqb_refl, orb_true_r.
Qed.

End AppMore.

(** ** Further properties of the map and of the panel *)

Module ViewMore.
Import Js MapWithNmi MapView LoopSpec ProcFacts LoopFacts Controller Outcomes.
Local Open Scope proc_scope.



(** X10: outside the details panel nothing of the panel reacts: while a
    selection loads, while an error is shown and while no NMI is selected, a
    click on "Use device current location" or on "Confirm Address" and typing
    in the address field leave the state and the pending procedures as they
    are.  In particular the current location cannot be used before a first
    NMI has been resolved, nor to retry after an error. *)
Theorem panel_controls_need_details (g : bool) (c : Config) (a : string) :
  loading (state c) = true \/ error (state c) <> "" \/ selectedNmi (state c) = None ->
  step g c UseCurrentLocation = c /\
  step g c Confirm = c /\
  step g c (EditAddress a) = c.
Proof.
  intros H.
  assert (Hr : render (state c) = Loading \/ (exists m, render (state c) = Failed m)
               \/ render (state c) = Prompt).
  { unfold render. destruct (loading (state c)); [left; reflexivity |].
    destruct (error (state c)) as [|ch rest] eqn:He.
    - cbn. destruct H as [H | [H | H]]; [discriminate | congruence |].
      rewrite H. right; right; reflexivity.
    - cbn. right; left. eexists; reflexivity. }
  unfold step. destruct Hr as [-> | [[m ->] | ->]]; repeat split.
Qed.

Lemma panel_controls_need_details_at_start :
  step true start UseCurrentLocation = start /\
  step true start Confirm = start /\
  step true start (EditAddress "1 Market St") = start.
Proof.
  exact (panel_controls_need_details true start "1 Market St"
           (or_intror (or_intror eq_refl))).
Defined.

(** X11: a click for which the scan finds nothing issues no request at all:
    the handler is suspended for one turn only and then ends with nothing
    selected, an empty address, no error and [loading] cleared. *)
Theorem unresolved_click_issues_no_request
        (g : bool) (c : Config) (lat lng : number) :
  pending c = [] ->
  nearestIn nmiMarkers lat lng = None ->
  (exists k, step g c (MapClick lat lng)
             = {| state := selecting lat lng (state c); pending := [Tick k] |}) /\
  exec g c [MapClick lat lng; Resume 0 Turn]
  = {| state := setLoading false
                  (setAddress "" (setSelectedNmi None (selecting lat lng (state c))));
       pending := [] |}.
Proof.
  intros Hp Hn. unfold exec. cbn [fold_left].
  remember (step g c (MapClick lat lng)) as c1 eqn:E1.
  unfold step, spawn, handleMapClick, fetchNearestNmi in E1.
  rewrite Hp, Hn in E1. cbn in E1. subst c1.
  split; [eexists |]; reflexivity.
Qed.

Lemma unresolved_click_issues_no_request_at_nan :
  exec true start [MapClick PrimFloat.nan 0%float; Resume 0 Turn]
  = {| state := setLoading false
                  (setAddress "" (setSelectedNmi None
                     (selecting PrimFloat.nan 0%float initial)));
       pending := [] |}.
Proof.
  exact (proj2 (unresolved_click_issues_no_request
                  true start PrimFloat.nan 0%float eq_refl eq_refl)).
Defined.

End ViewMore.

(** ** Further properties of the event loop *)

Module LoopMore.
Import Js MapWithNmi LoopSpec ProcFacts LoopFacts Controller.
Local Open Scope proc_scope.

Lemma exec_app (g : bool) (c : Config) (l1 l2 : list Event) :
  exec g c (l1 ++ l2) = exec g (exec g c l1) l2.
Proof. apply fold_left_app. Qed.

Lemma remove_nth_last {A} (l : list A) (x : A) :
  remove_nth (List.length l) (l ++ [x]) = l.
Proof. induction l as [|y l IH]; simpl; [reflexivity | now rewrite IH]. Qed.

Lemma nth_error_last {A} (l : list A) (x : A) :
  nth_error (l ++ [x]) (List.length l) = Some x.
Proof. induction l as [|y l IH]; simpl; [reflexivity | exact IH]. Qed.

(** *** A late answer overwrites a newer selection *)

(** The suspensions [handleMapClick] goes through when the scan selects [r],
    the application's own handler serves [/api/geocode] and the geocoding
    service knows the address [a]. *)
Lemma handleMapClick_chain (lat lng : number) (r : NmiGeocode.t) (a : string) :
  nearestIn nmiMarkers lat lng = Some r ->
  exists t1 t2 t3 t4 k1 k2 k3 k4,
    (forall s, advance (handleMapClick lat lng) s = (selecting lat lng s, Some t1)) /\
    resume t1 (GeocodeAnswer (local_geocode_api true (NmiGeocode.nmi r))) = Some k1 /\
    (forall s, advance k1 s = (s, Some t2)) /\
    resume t2 Turn = Some k2 /\
    (forall s, advance k2 s = (setSelectedNmi (Some (NmiGeocode.nmi r)) s, Some t3)) /\
    resume t3 (GoogleAnswer (one_address a)) = Some k3 /\
    (forall s, advance k3 s = (s, Some t4)) /\
    resume t4 Turn = Some k4 /\
    (forall s, advance k4 s = (setLoading false (setAddress a s), None)).
Proof.
  intros Hr.
  destruct (ResolverFacts.nearestIn_some _ _ _ _ Hr) as (before & after & E & _).
  assert (Hin : In r nmiMarkers) by (rewrite E; apply in_or_app; right; left; reflexivity).
  unfold handleMapClick, fetchNearestNmi. rewrite Hr.
  destruct Hin as [<- | [<- | [<- | []]]];
    do 8 eexists; repeat split; intros; cbn; reflexivity.
Qed.

(** Carrying the last pending procedure, a [handleMapClick], to its end. *)
Lemma exec_completes (g : bool) (lat lng : number) (r : NmiGeocode.t) (a : string)
      (s : State) (others : list (Proc unit)) :
  nearestIn nmiMarkers lat lng = Some r ->
  exists t1,
    (forall s0, advance (handleMapClick lat lng) s0 = (selecting lat lng s0, Some t1)) /\
    exec g {| state := s; pending := others ++ [t1] |}
         (completes (List.length others) (NmiGeocode.nmi r) (one_address a))
    = {| state := setLoading false
                    (setAddress a (setSelectedNmi (Some (NmiGeocode.nmi r)) s));
         pending := others |}.
Proof.
  intros Hr.
  destruct (handleMapClick_chain lat lng r a Hr)
    as (t1 & t2 & t3 & t4 & k1 & k2 & k3 & k4 & H1 & R1 & A1 & R2 & A2 & R3 & A3 & R4 & A4).
  exists t1. split; [exact H1 |].
  unfold completes, exec. cbn [fold_left].
  unfold step at 4. cbn [pending state]. rewrite nth_error_last, R1.
  unfold spawn. cbn [pending state]. rewrite remove_nth_last, A1. cbn [fst snd suspended].
  unfold step at 3. cbn [pending state]. rewrite nth_error_last, R2.
  unfold spawn. cbn [pending state]. rewrite remove_nth_last, A2. cbn [fst snd suspended].
  unfold step at 2. cbn [pending state]. rewrite nth_error_last, R3.
  unfold spawn. cbn [pending state]. rewrite remove_nth_last, A3. cbn [fst snd suspended].
  unfold step. cbn [pending state]. rewrite nth_error_last, R4.
  unfold spawn. cbn [pending state]. rewrite remove_nth_last, A4. cbn [fst snd suspended].
  now rewrite app_nil_r.
Qed.

(** X12: nothing cancels an older selection.  When a second click follows a
    first one whose answers are still outstanding, and the answers of the
    second arrive before those of the first, the component ends with the
    position of the second click but the NMI and the address resolved for
    the first. *)
Theorem late_answers_overwrite_newer_selection
        (g : bool) (c : Config)
        (lat1 lng1 lat2 lng2 : number) (r1 r2 : NmiGeocode.t) (a1 a2 : string) :
  pending c = [] ->
  nearestIn nmiMarkers lat1 lng1 = Some r1 ->
  nearestIn nmiMarkers lat2 lng2 = Some r2 ->
  let c' := exec g c ([MapClick lat1 lng1; MapClick lat2 lng2]
                        ++ completes 1 (NmiGeocode.nmi r2) (one_address a2)
                        ++ completes 0 (NmiGeocode.nmi r1) (one_address a1)) in
  pending c' = [] /\
  loading (state c') = false /\
  selectedPosition (state c') = Some (LatLng.make lat2 lng2) /\
  selectedNmi (state c') = Some (NmiGeocode.nmi r1) /\
  address (state c') = a1.
Proof.
  intros Hp Hr1 Hr2 c'. subst c'.
  destruct (exec_completes g lat1 lng1 r1 a1
              (setLoading false
                 (setAddress a2 (setSelectedNmi (Some (NmiGeocode.nmi r2))
                    (selecting lat2 lng2 (selecting lat1 lng1 (state c))))))
              [] Hr1) as (t1 & H1 & E1).
  destruct (exec_completes g lat2 lng2 r2 a2
              (selecting lat2 lng2 (selecting lat1 lng1 (state c)))
              [t1] Hr2) as (t2 & H2 & E2).
  rewrite !exec_app.
  assert (E0 : exec g c [MapClick lat1 lng1; MapClick lat2 lng2]
               = {| state := selecting lat2 lng2 (selecting lat1 lng1 (state c));
                    pending := [t1] ++ [t2] |}).
  { unfold exec. cbn [fold_left]. unfold step, spawn. cbn [state pending].
    rewrite H1. cbn [fst snd suspended]. rewrite H2, Hp. reflexivity. }
  rewrite E0. cbn [List.length] in E2. rewrite E2.
  cbn [List.length app] in E1. rewrite E1. repeat split.
Qed.

Lemma late_answers_overwrite_sydney_by_melbourne :
  let c' := exec true start
                 ([MapClick (-37.8)%float 145%float; MapClick (-33.87)%float 151.21%float]
                    ++ completes 1 "NMI001" (one_address "1 Market St")
                    ++ completes 0 "NMI002" (one_address "123 Collins St")) in
  selectedPosition (state c') = Some (LatLng.make (-33.87)%float 151.21%float) /\
  selectedNmi (state c') = Some "NMI002" /\
  address (state c') = "123 Collins St".
Proof.
  pose proof (late_answers_overwrite_newer_selection
                true start (-37.8)%float 145%float (-33.87)%float 151.21%float
                (NmiGeocode.make "NMI002" (-37.8136)%float 144.9631%float)
                (NmiGeocode.make "NMI001" (-33.8708)%float 151.2073%float)
                "123 Collins St" "1 Market St" eq_refl eq_refl eq_refl) as H.
  cbv zeta in *. destruct H as (_ & _ & H1 & H2 & H3).
  repeat split; assumption.
Defined.

End LoopMore.

(** ** Invariants of the event loop *)

Module LoopInvariants.
Import Js MapWithNmi LoopSpec ProcFacts LoopFacts Controller AppMore.
Local Open Scope proc_scope.

(** *** The setters the handlers call *)

Section Setters.

Variable P : (State -> State) -> Prop.
Hypothesis P_loading : forall b, P (setLoading b).
Hypothesis P_error : forall e, P (setError e).
Hypothesis P_position : forall p, P (setSelectedPosition p).
Hypothesis P_nmi : forall n, P (setSelectedNmi n).
Hypothesis P_address : forall a, P (setAddress a).
Hypothesis P_unconfirm : P (setConfirmedAddress "").

Ltac one_set := apply AllSets_set; auto.

Lemma AllSets_handleMapClick lat lng : AllSets P (handleMapClick lat lng).
Proof.
  unfold handleMapClick.
  repeat (apply AllSets_bind; [one_set | intros _]).
  apply AllSets_try_finally; [| one_set].
  apply AllSets_try_catch; [| one_set].
  apply AllSets_bind; [apply AllSets_await, AllSets_fetchNearestNmi |].
  intros j. destruct (nmi_of j).
  - apply AllSets_bind; [one_set | intros _].
    apply AllSets_bind; [apply AllSets_await, AllSets_fetchAddressFromCoords |].
    intros a. one_set.
  - apply AllSets_bind; [one_set | intros _]. one_set.
Qed.

Lemma AllSets_onPosition r : AllSets P (onPosition r).
Proof.
  destruct r as [la lo|]; unfold onPosition.
  - apply AllSets_await, AllSets_handleMapClick.
  - apply AllSets_bind; [one_set | intros _]. one_set.
Qed.

Lemma AllSets_handleUseCurrentLocation g : AllSets P (handleUseCurrentLocation g).
Proof.
  unfold handleUseCurrentLocation. destruct g; simpl negb; cbv iota.
  - repeat (apply AllSets_bind; [one_set | intros _]).
    simpl. intros r. apply AllSets_onPosition.
  - one_set.
Qed.

Lemma handleConfirm_then (a : string) :
  exists k, handleConfirm a = SetState (setConfirmedAddress a) k /\ AllSets P k.
Proof.
  eexists. split; [reflexivity |].
  apply AllSets_try_catch; [| exact I].
  apply AllSets_bind; [apply AllSets_await, AllSets_fetchLatLngFromAddress |].
  intros [c|]; [one_set | exact I].
Qed.

(** Every procedure the event loop leaves pending only calls setters of [P]. *)
Lemma step_pending (g : bool) (c : Config) (e : Event) :
  Forall (AllSets P) (pending c) -> Forall (AllSets P) (pending (step g c e)).
Proof.
  intros Hc. destruct e as [lat lng|i| |a| |i a]; unfold step.
  - rewrite pending_spawn. apply Forall_app. split; [assumption |].
    apply AllSets_advance, AllSets_handleMapClick.
  - destruct (nth_error nmiMarkers i); [| assumption].
    rewrite pending_spawn. apply Forall_app. split; [assumption |].
    apply AllSets_advance, AllSets_handleMapClick.
  - destruct (render (state c)) as [| | ? ? ? [] ?|]; try assumption.
    rewrite pending_spawn. apply Forall_app. split; [assumption |].
    apply AllSets_advance, AllSets_handleUseCurrentLocation.
  - destruct (render (state c)); assumption.
  - destruct (render (state c)) as [| | ? ? [] ? ?|]; try assumption.
    destruct (handleConfirm_then (address (state c))) as (k & E & Hk).
    rewrite pending_spawn, E. apply Forall_app. split; [assumption |].
    apply (AllSets_advance P k), Hk.
  - destruct (nth_error (pending c) i) as [t|] eqn:Et; [| assumption].
    destruct (resume t a) as [k|] eqn:Ek; [| assumption].
    rewrite pending_spawn. apply Forall_app. split.
    + simpl. apply Forall_remove_nth, Hc.
    + apply AllSets_advance. eapply AllSets_resume; [| exact Ek].
      eapply Forall_forall; [exact Hc |]. eapply nth_error_In, Et.
Qed.

Lemma exec_pending (g : bool) (events : list Event) (c : Config) :
  Forall (AllSets P) (pending c) -> Forall (AllSets P) (pending (exec g c events)).
Proof.
  unfold exec. revert c. induction events as [|e es IH]; intros c Hc; simpl; auto.
  apply IH, step_pending, Hc.
Qed.

End Setters.

(** *** Only a confirm writes a non-empty confirmed address *)

Lemma pending_keep_or_clear (g : bool) (events : list Event) :
  Forall (AllSets keeps_or_clears_confirmed) (pending (exec g start events)).
Proof.
  apply exec_pending;
    first [ solve [intros; intros s; simpl; auto] | constructor ].
Qed.

Lemma advance_keeps_or_clears (p : Proc unit) (s : State) :
  AllSets keeps_or_clears_confirmed p ->
  confirmedAddress (fst (advance p s)) = confirmedAddress s \/
  confirmedAddress (fst (advance p s)) = "".
Proof.
  revert s. induction p as [a| |u k IH|k IH|n k IH|q k IH|o k IH]; intros s Hp; simpl; auto.
  destruct Hp as [Hu Hk]. destruct (IH (u s) Hk) as [H | H]; [| auto].
  rewrite H. apply Hu.
Qed.

Lemma step_keeps_or_clears (g : bool) (c : Config) (e : Event) :
  is_confirm e = false ->
  Forall (AllSets keeps_or_clears_confirmed) (pending c) ->
  confirmedAddress (state (step g c e)) = confirmedAddress (state c) \/
  confirmedAddress (state (step g c e)) = "".
Proof.
  assert (Hm : forall lat lng, AllSets keeps_or_clears_confirmed (handleMapClick lat lng))
    by (intros; apply AllSets_handleMapClick; intros; intros s; simpl; auto).
  intros He Hc. destruct e as [lat lng|i| |a| |i a]; try discriminate; unfold step.
  - rewrite state_spawn. apply advance_keeps_or_clears, Hm.
  - destruct (nth_error nmiMarkers i); [| auto].
    rewrite state_spawn. apply advance_keeps_or_clears, Hm.
  - destruct (render (state c)) as [| | ? ? ? [] ?|]; auto.
    rewrite state_spawn. apply advance_keeps_or_clears.
    apply AllSets_handleUseCurrentLocation; intros; intros s; simpl; auto.
  - destruct (render (state c)); auto.
  - destruct (nth_error (pending c) i) as [t|] eqn:Et; [| auto].
    destruct (resume t a) as [k|] eqn:Ek; [| auto].
    rewrite state_spawn. apply advance_keeps_or_clears.
    eapply AllSets_resume; [| exact Ek].
    eapply Forall_forall; [exact Hc |]. eapply nth_error_In, Et.
Qed.

(** X13: in every configuration the component reaches, the confirmed address
    is empty or is the draft address as it stood at an earlier click on
    "Confirm Address": no answer of the outside world and no other event ever
    writes an address the user has not confirmed. *)
Theorem confirmed_address_was_confirmed (g : bool) (events : list Event) :
  confirmedAddress (state (exec g start events)) = "" \/
  exists before after,
    events = before ++ Confirm :: after /\
    confirmedAddress (state (exec g start events))
    = address (state (exec g start before)).
Proof.
  induction events as [|e es IH] using rev_ind; [left; reflexivity |].
  unfold exec in *. rewrite fold_left_app. cbn [fold_left].
  fold (exec g start es) in *. set (c := exec g start es) in *.
  assert (Hkeep : confirmedAddress (state (step g c e)) = confirmedAddress (state c) ->
                  confirmedAddress (state (step g c e)) = "" \/
                  exists before after,
                    es ++ [e] = before ++ Confirm :: after /\
                    confirmedAddress (state (step g c e))
                    = address (state (fold_left (step g) before start))).
  { intros H. rewrite H. destruct IH as [IH | (before & after & E & IH)]; [auto |].
    right. exists before, (after ++ [e]). split; [| exact IH].
    rewrite E, <- app_assoc. reflexivity. }
  destruct (is_confirm e) eqn:He.
  - destruct e; try discriminate.
    destruct (step_Confirm_cases g c) as [H | H].
    + apply Hkeep. now rewrite H.
    + right. exists es, []. split; [reflexivity |]. rewrite H. reflexivity.
  - destruct (step_keeps_or_clears g c e He (pending_keep_or_clear g es)) as [H | H];
      [apply Hkeep, H | auto].
Qed.

(** *** The loading indication is never left behind *)

Lemma EndsIdle_bind {A B} (p : Proc A) (f : A -> Proc B) :
  EndsIdle p -> (forall a, AllSets keeps_loading (f a)) -> EndsIdle (bind p f).
Proof.
  induction p as [a| |u k IH|k IH|n k IH|q k IH|o k IH]; simpl; intros Hp Hf; auto;
    try contradiction.
  destruct Hp as [[Hu Hk] | Hk]; [left | right; auto].
  split; [exact Hu | apply AllSets_bind; assumption].
Qed.

Lemma EndsIdle_try_catch {A} (p h : Proc A) :
  EndsIdle p -> AllSets keeps_loading h -> EndsIdle (try_catch p h).
Proof.
  induction p as [a| |u k IH|k IH|n k IH|q k IH|o k IH]; simpl; intros Hp Hh; auto;
    try contradiction.
  destruct Hp as [[Hu Hk] | Hk]; [left | right; auto].
  split; [exact Hu | apply AllSets_try_catch; assumption].
Qed.

Lemma EndsIdle_try_finally {A} (p : Proc A) (u : State -> State) :
  clears_loading u -> EndsIdle (try_finally p (set u)).
Proof.
  intros Hu.
  induction p as [a| |v k IH|k IH|n k IH|q k IH|o k IH]; simpl; auto;
    left; (split; [exact Hu | exact I]).
Qed.

Lemma EndsIdle_await {A} (p : Proc A) : EndsIdle p -> EndsIdle (await p).
Proof.
  intros Hp. unfold await. apply EndsIdle_try_catch; [| exact I].
  apply EndsIdle_bind; [exact Hp | intros a; exact I].
Qed.

Lemma EndsIdle_handleMapClick lat lng : EndsIdle (handleMapClick lat lng).
Proof.
  unfold handleMapClick. cbn [bind set]. do 6 right.
  apply EndsIdle_try_finally. intros s. reflexivity.
Qed.

Lemma EndsIdle_onPosition r : EndsIdle (onPosition r).
Proof.
  destruct r as [la lo|]; unfold onPosition.
  - apply EndsIdle_await, EndsIdle_handleMapClick.
  - cbn. left. repeat split; intros s; reflexivity.
Qed.

Lemma EndsIdle_resume (t k : Proc unit) (a : Answer) :
  EndsIdle t -> resume t a = Some k -> EndsIdle k.
Proof.
  destruct t, a; simpl; intros Ht E; inversion E; subst; auto.
Qed.

Lemma advance_keeps_loading (p : Proc unit) (s : State) :
  AllSets keeps_loading p -> loading (fst (advance p s)) = loading s.
Proof.
  revert s. induction p as [a| |u k IH|k IH|n k IH|q k IH|o k IH]; intros s Hp; simpl; auto.
  destruct Hp as [Hu Hk]. rewrite (IH (u s) Hk). apply Hu.
Qed.

Lemma advance_EndsIdle (p : Proc unit) (s : State) :
  EndsIdle p ->
  (loading (fst (advance p s)) = false /\
   Forall (AllSets keeps_loading) (suspended (snd (advance p s))))
  \/ Exists EndsIdle (suspended (snd (advance p s))).
Proof.
  revert s. induction p as [a| |u k IH|k IH|n k IH|q k IH|o k IH]; intros s Hp; simpl;
    try contradiction; try (right; constructor; exact Hp).
  destruct Hp as [[Hu Hk] | Hk]; [left | auto].
  split; [| apply AllSets_advance, Hk].
  rewrite (advance_keeps_loading k (u s) Hk). apply Hu.
Qed.

Lemma EndsIdle_not_neutral (p : Proc unit) :
  EndsIdle p -> AllSets keeps_loading p -> False.
Proof.
  induction p as [a| |u k IH|k IH|n k IH|q k IH|o k IH]; simpl; intros He Hn; auto.
  - destruct Hn as [Hu Hk]. destruct He as [[Hc _] | He]; [| auto].
    specialize (Hu (setLoading true initial)). rewrite Hc in Hu. discriminate.
  - apply (IH Rejected); auto.
  - apply (IH Rejected); auto.
  - apply (IH PositionError); auto.
Qed.

Lemma Exists_remove_nth {A} (Q : A -> Prop) (i : nat) (l : list A) (x : A) :
  Exists Q l -> nth_error l i = Some x -> ~ Q x -> Exists Q (remove_nth i l).
Proof.
  revert i. induction l as [|y l IH]; intros i He Hn Hx; [inversion He |].
  destruct i as [|j]; simpl in *.
  - injection Hn as ->. inversion He; subst; [contradiction | assumption].
  - inversion He; subst; [left; assumption | right; eauto].
Qed.

Lemma spawn_idle (p : Proc unit) (s : State) (others : list (Proc unit)) :
  EndsIdle p ->
  Forall (fun t => EndsIdle t \/ AllSets keeps_loading t) others ->
  spinner_inv (spawn p {| state := s; pending := others |}).
Proof.
  intros Hp Ho. unfold spinner_inv. rewrite state_spawn, pending_spawn. cbn [state pending].
  destruct (advance_EndsIdle p s Hp) as [[Hl Hn] | He].
  - split; [| rewrite Hl; discriminate].
    apply Forall_app. split; [exact Ho |].
    eapply Forall_impl; [| exact Hn]. auto.
  - split; [| intros _; apply Exists_app; right; exact He].
    apply Forall_app. split; [exact Ho |].
    destruct (snd (advance p s)); inversion He; subst; repeat constructor; auto.
    inversion H0.
Qed.

Lemma spawn_neutral (p : Proc unit) (s : State) (others : list (Proc unit)) :
  AllSets keeps_loading p ->
  Forall (fun t => EndsIdle t \/ AllSets keeps_loading t) others ->
  (loading s = true -> Exists EndsIdle others) ->
  spinner_inv (spawn p {| state := s; pending := others |}).
Proof.
  intros Hp Ho Hs. unfold spinner_inv. rewrite state_spawn, pending_spawn. cbn [state pending].
  split.
  - apply Forall_app. split; [exact Ho |].
    eapply Forall_impl; [| apply AllSets_advance, Hp]. auto.
  - rewrite (advance_keeps_loading p s Hp). intros H. apply Exists_app. left. auto.
Qed.

Lemma step_spinner (g : bool) (c : Config) (e : Event) :
  spinner_inv c -> spinner_inv (step g c e).
Proof.
  intros [Hf Hl].
  assert (Hc : c = {| state := state c; pending := pending c |}) by (destruct c; reflexivity).
  destruct e as [lat lng|i| |a| |i a]; unfold step.
  - rewrite Hc. apply spawn_idle; [apply EndsIdle_handleMapClick | exact Hf].
  - destruct (nth_error nmiMarkers i); [| split; assumption].
    rewrite Hc. apply spawn_idle; [apply EndsIdle_handleMapClick | exact Hf].
  - destruct (render (state c)) as [| | ? ? ? [] ?|]; try (split; assumption).
    rewrite Hc. destruct g.
    + apply spawn_idle; [| exact Hf].
      unfold handleUseCurrentLocation. cbn. do 2 right. apply EndsIdle_onPosition.
    + apply spawn_neutral; [| exact Hf | exact Hl].
      cbn. split; [intros s; reflexivity | exact I].
  - destruct (render (state c)); split; assumption.
  - destruct (render (state c)) as [| | ? ? [] ? ?|]; try (split; assumption).
    rewrite Hc. apply spawn_neutral; [| exact Hf | exact Hl].
    destruct (handleConfirm_then keeps_loading
                (fun p s => eq_refl) (address (state c))) as (k & E & Hk).
    cbn [state]. rewrite E. split; [intros s; reflexivity | exact Hk].
  - destruct (nth_error (pending c) i) as [t|] eqn:Et; [| split; assumption].
    destruct (resume t a) as [k|] eqn:Ek; [| split; assumption].
    assert (Ht : EndsIdle t \/ AllSets keeps_loading t)
      by (apply (proj1 (Forall_forall _ _) Hf t), (nth_error_In _ _ Et)).
    assert (Hr : Forall (fun t => EndsIdle t \/ AllSets keeps_loading t)
                        (remove_nth i (pending c)))
      by (apply Forall_remove_nth, Hf).
    destruct Ht as [Ht | Ht].
    + apply spawn_idle; [eapply EndsIdle_resume; eassumption | exact Hr].
    + apply spawn_neutral; [eapply AllSets_resume; eassumption | exact Hr |].
      intros H. eapply Exists_remove_nth; [apply Hl, H | exact Et |].
      intros He. exact (EndsIdle_not_neutral t He Ht).
Qed.

Lemma EndsIdle_run {A} (w : World) (p : Proc A) (s : State) :
  EndsIdle p -> loading (fst (run w p s)) = false.
Proof.
  assert (Hn : forall (q : Proc A) s0, AllSets keeps_loading q ->
                                       loading (fst (run w q s0)) = loading s0).
  { induction q as [a| |u k IH|k IH|n k IH|q k IH|o k IH]; intros s0 Hq; simpl; auto.
    destruct Hq as [Hu Hk]. rewrite (IH (u s0) Hk). apply Hu. }
  revert s. induction p as [a| |u k IH|k IH|n k IH|q k IH|o k IH]; intros s Hp; simpl;
    try contradiction; auto.
  destruct Hp as [[Hu Hk] | Hk]; [| auto].
  rewrite (Hn k (u s) Hk). apply Hu.
Qed.

(** X14: the loading indication is never left behind.  In every
    configuration the component reaches with [loading] set, a procedure is
    pending that, whatever answers it gets, ends with [loading] cleared; in
    particular "Loading..." is never shown while nothing is outstanding. *)
Theorem loading_has_a_pending_clearer (g : bool) (events : list Event) :
  let c := exec g start events in
  loading (state c) = true ->
  exists t, In t (pending c) /\
            forall (w : World) (s : State), loading (fst (run w t s)) = false.
Proof.
  cbv zeta.
  assert (H : spinner_inv (exec g start events)).
  { unfold exec.
    assert (G : forall c, spinner_inv c -> spinner_inv (fold_left (step g) events c)).
    { induction events as [|e es IH]; intros c Hc; simpl; [exact Hc |].
      apply IH, step_spinner, Hc. }
    apply G. split; [constructor | discriminate]. }
  intros Hl. destruct H as [_ H]. apply H in Hl.
  apply Exists_exists in Hl. destruct Hl as (t & Hin & Ht).
  exists t. split; [exact Hin |]. intros w s. apply EndsIdle_run, Ht.
Qed.

Lemma loading_has_a_pending_clearer_after_click :
  exists t, In t (pending (exec true start [MapClick (-33.87)%float 151.21%float])) /\
            forall (w : World) (s : State), loading (fst (run w t s)) = false.
Proof.
  exact (loading_has_a_pending_clearer true [MapClick (-33.87)%float 151.21%float] eq_refl).
Defined.

End LoopInvariants.

(** ** The address fields *)

Module Fields.
Import Js.

(** X15: the address field of [App.tsx] keeps the text of its first mount.
    After two clicks that resolve to the NMIs [n1] and then [n2], the field
    still shows the address of [n1] while the draft address in the state is
    the address of [n2]; a click on "Confirm Address" then confirms the
    address of [n2], which the field does not show. *)
Theorem App_field_keeps_first_address
        (lat1 lng1 lat2 lng2 : number) (n1 n2 : string) :
  App.findNearestNmi lat1 lng1 = Some n1 ->
  App.findNearestNmi lat2 lng2 = Some n2 ->
  let u := AppField.exec AppField.begin [App.MapClick lat1 lng1; App.MapClick lat2 lng2] in
  exists a1 a2,
    own App.mockAddressData n1 = Some a1 /\
    own App.mockAddressData n2 = Some a2 /\
    AppField.input u = Some a1 /\
    App.address (AppField.app u) = a2 /\
    App.confirmedAddress (AppField.app (AppField.step u App.Confirm)) = a2.
Proof.
  intros H1 H2. cbv zeta. unfold AppField.exec. cbn [fold_left].
  set (s1 := App.handleMapClick lat1 lng1 App.initial).
  destruct (AppMore.App_handleMapClick_cases lat1 lng1 App.initial)
    as [(m1 & a1 & Hs1 & _ & Ho1 & Ha1 & Hr1) | (Hs1 & _)];
    [| rewrite (proj1 (proj2 (Controller.App_handleMapClick_fields _ _ _))) in Hs1;
       congruence].
  rewrite (proj1 (proj2 (Controller.App_handleMapClick_fields _ _ _))), H1 in Hs1.
  injection Hs1 as <-. fold s1 in Ha1, Hr1.
  destruct (AppMore.App_handleMapClick_cases lat2 lng2 s1)
    as [(m2 & a2 & Hs2 & _ & Ho2 & Ha2 & Hr2) | (Hs2 & _)];
    [| rewrite (proj1 (proj2 (Controller.App_handleMapClick_fields _ _ _))) in Hs2;
       congruence].
  rewrite (proj1 (proj2 (Controller.App_handleMapClick_fields _ _ _))), H2 in Hs2.
  injection Hs2 as <-. set (s2 := App.handleMapClick lat2 lng2 s1) in *.
  exists a1, a2. split; [exact Ho1 |]. split; [exact Ho2 |].
  unfold AppField.step, AppField.begin. cbn [AppField.app AppField.input App.step].
  fold s1. unfold AppField.rerender at 2. unfold AppField.shown. rewrite Hr1.
  fold s2. unfold AppField.rerender at 1. unfold AppField.shown at 1. rewrite Hr2.
  rewrite Ha1. split; [reflexivity |]. split; [exact Ha2 |].
  exact Ha2.
Qed.

Lemma App_field_keeps_sydney_after_melbourne :
  let u := AppField.exec AppField.begin
             [App.MapClick (-33.87)%float 151.21%float;
              App.MapClick (-37.8)%float 145%float] in
  AppField.input u = Some "1 Market St, Sydney NSW 2000, Australia" /\
  App.address (AppField.app u) = "123 Collins St, Melbourne VIC 3000, Australia".
Proof.
  destruct (App_field_keeps_first_address
              (-33.87)%float 151.21%float (-37.8)%float 145%float "NMI001" "NMI002"
              eq_refl eq_refl) as (a1 & a2 & H1 & H2 & H3 & H4 & _).
  cbv zeta. injection H1 as <-. injection H2 as <-. split; assumption.
Defined.

Lemma PlacesField_config (g : bool) (events : list MapWithNmi.Event) (u : PlacesField.Ui) :
  PlacesField.config (PlacesField.exec g u events)
  = MapWithNmi.exec g (PlacesField.config u) events.
Proof.
  unfold PlacesField.exec, MapWithNmi.exec. revert u.
  induction events as [|e es IH]; intros u; simpl; [reflexivity |].
  now rewrite IH.
Qed.

Lemma PlacesField_step_sync (g : bool) (u : PlacesField.Ui) (e : MapWithNmi.Event) :
  PlacesField.field_in_sync u -> PlacesField.field_in_sync (PlacesField.step g u e).
Proof.
  unfold PlacesField.field_in_sync, PlacesField.step. cbn [PlacesField.inputValue PlacesField.config].
  intros Hu. unfold PlacesField.rerender.
  set (c := PlacesField.config u) in *.
  destruct (PlacesField.shown (MapWithNmi.state (MapWithNmi.step g c e))) eqn:Hs';
    [| reflexivity].
  destruct (PlacesField.inputValue u) as [text|] eqn:Hi.
  - destruct Hu as [Ht Hs].
    assert (Ha : forall a, e = MapWithNmi.EditAddress a ->
                           MapWithNmi.address (MapWithNmi.state (MapWithNmi.step g c e)) = a).
    { intros a ->. unfold MapWithNmi.step. unfold PlacesField.shown in Hs.
      destruct (MapWithNmi.render (MapWithNmi.state c)); try discriminate. reflexivity. }
    destruct e as [lat lng|i| |a| |i a]; cbn [option_map];
      match goal with
      | |- context [String.eqb ?x ?y] => destruct (String.eqb x y) eqn:E
      end; cbv iota beta;
      try (split; reflexivity);
      apply String.eqb_eq in E;
      try (split; [congruence | reflexivity]).
    split; [| reflexivity]. symmetry. apply Ha. reflexivity.
  - destruct e; cbn [option_map]; split; auto.
Qed.

(** X16: the address field of [MapWithNmi.tsx] always shows the draft
    address.  After any sequence of events the field is mounted exactly when
    the details panel is rendered, and its text then equals [address],
    whether the draft was typed, chosen from the suggestions or written by an
    answer that arrived. *)
Theorem Places_field_shows_draft (g : bool) (events : list MapWithNmi.Event) :
  let u := PlacesField.exec g PlacesField.begin events in
  PlacesField.config u = MapWithNmi.exec g MapWithNmi.start events /\
  match PlacesField.inputValue u with
  | Some text =>
      text = MapWithNmi.address (MapWithNmi.state (PlacesField.config u)) /\
      PlacesField.shown (MapWithNmi.state (PlacesField.config u)) = true
  | None => PlacesField.shown (MapWithNmi.state (PlacesField.config u)) = false
  end.
Proof.
  cbv zeta. split; [apply PlacesField_config |].
  change (PlacesField.field_in_sync (PlacesField.exec g PlacesField.begin events)).
  unfold PlacesField.exec.
  assert (G : forall u, PlacesField.field_in_sync u ->
                        PlacesField.field_in_sync (fold_left (PlacesField.step g) events u)).
  { induction events as [|e es IH]; intros u Hu; simpl; [exact Hu |].
    apply IH, PlacesField_step_sync, Hu. }
  apply G. reflexivity.
Qed.

End Fields.
